(** * Tobacco & mortality dashboard (app.py): data pipeline

    A shallow embedding of the data-transformation pipeline of [app.py]:
    the two loaders, the grouped means, the top-5 selections, the linear
    forecast loop and the assembling script.

    Modelling conventions.
    - A DataFrame is the list of its rows, in row order.
    - A nullable cell is an [option]: [None] is pandas' NaN / missing value.
    - float64 numbers are modelled by exact rationals ([Q]); numeric results
      are stated up to [==] ([Qeq]).  Rounding is therefore not modelled:
      a value given here is the one the float64 computation approximates.
    - An integer column is int64; the cast to it wraps.
    - A raised Python exception is the [Err] case of [result]; the script has
      no [try]/[except], so an error propagates through every later step.
    - pandas and numpy calls ([isin], [astype], [groupby(..).mean()],
      [nlargest], [Series.mean], [np.polyfit] of degree 1) are modelled by
      what the libraries compute for the call as written in [app.py]. *)

From Stdlib Require Import String Ascii.
From Stdlib Require Import List Bool Arith ZArith QArith Qfield Qround.
From Stdlib Require Import Permutation Sorted Lia Lqa.
From Stdlib Require DecimalString DecimalZ.
Import ListNotations.

Local Open Scope string_scope.
Local Open Scope list_scope.
Local Open Scope Q_scope.

(** ** Exceptions and the error monad *)

Inductive error : Type :=
| IntCastingNaNError   (* astype(int) on a missing value *)
| TypeError            (* np.polyfit on an empty vector *)
| LinAlgError.         (* the SVD inside np.polyfit did not converge *)

Inductive result (A : Type) : Type :=
| Ok (a : A)
| Err (e : error).

Arguments Ok {A} a.
Arguments Err {A} e.

Definition bind {A B : Type} (r : result A) (k : A -> result B) : result B :=
  match r with
  | Ok a => k a
  | Err e => Err e
  end.

Notation "x <- c ;; k" := (bind c (fun x => k))
  (at level 61, c at next level, right associativity).

Fixpoint mapM {A B : Type} (f : A -> result B) (l : list A) : result (list B) :=
  match l with
  | [] => Ok []
  | a :: t => b <- f a ;; bs <- mapM f t ;; Ok (b :: bs)
  end.

(** ** Data model *)

(** One row of the spreadsheet as [pd.read_excel] yields it. *)
Record RawRow : Type := mkRawRow {
  setting        : option string;
  date           : option Q;
  subgroup       : option string;
  raw_indicator  : option string;     (* column indicator_name *)
  estimate       : option Q;
  raw_iso3       : option string;     (* column iso3 *)
  raw_wbincome   : option string      (* column wbincome2024 / wbincome2023 *)
}.

(** One row of a loaded frame.  [value] is the renamed [estimate] column:
    [prevalence] in the tobacco frame, [mortality] in the mortality frame.
    [wbincome] is [wbincome2024] (tobacco) or [wbincome2023] (mortality). *)
Record Row : Type := mkRow {
  country        : option string;
  year           : Z;
  sex            : option string;
  indicator_name : option string;
  value          : option Q;
  iso3           : option string;
  wbincome       : option string
}.

(** ** Loaders *)

(** [Series.isin(values)]: a missing cell is in no list of strings. *)
Definition isin (c : option string) (values : list string) : bool :=
  match c with
  | Some s => existsb (String.eqb s) values
  | None => false
  end.

(** An int64 holds the integers from -2^63 to 2^63 - 1; a cast to it keeps
    the low 64 bits (two's complement). *)
Definition wrap_int64 (z : Z) : Z :=
  ((z + 2 ^ 63) mod 2 ^ 64 - 2 ^ 63)%Z.

(** [astype(int)] on one numeric cell: truncation toward zero into an
    int64, wrapping silently outside its range; a missing value raises. *)
Definition astype_int (c : option Q) : result Z :=
  match c with
  | Some q => Ok (wrap_int64 (Z.quot (Qnum q) (Z.pos (Qden q))))
  | None => Err IntCastingNaNError
  end.

(** [rename(columns=...)] followed by [assign(year=d.year.astype(int))]
    on one retained row. *)
Definition normalize (r : RawRow) : result Row :=
  y <- astype_int (date r) ;;
  Ok {| country := setting r;
        year := y;
        sex := subgroup r;
        indicator_name := raw_indicator r;
        value := estimate r;
        iso3 := raw_iso3 r;
        wbincome := raw_wbincome r |}.

Definition keep (indicators : list string) (r : RawRow) : bool :=
  isin (raw_indicator r) indicators && isin (subgroup r) ["Male"; "Female"].

(** [path] stands for the sheet read from it. *)
Definition load_tobacco (path : list RawRow) (indicators : list string)
  : result (list Row) :=
  let df := filter (keep indicators) path in
  mapM normalize df.

Definition mortality_indicator : string :=
  "2.A.05 Tracheal, bronchus, and lung cancer incidence (age standardized) (per 100 000 population)".

Definition load_mortality (path : list RawRow) : result (list Row) :=
  let indicators := [mortality_indicator] in
  let df := filter (keep indicators) path in
  mapM normalize df.

(** ** Aggregator: [groupby(keys, as_index=False).<col>.mean()] *)

(** What a group key needs: equality and the order the groups are sorted
    by ([groupby] sorts its groups by key). *)
Class Key (K : Type) : Type := {
  key_eqb : K -> K -> bool;
  key_leb : K -> K -> bool
}.

#[export] Instance string_Key : Key string :=
  {| key_eqb := String.eqb; key_leb := String.leb |}.

#[export] Instance Z_Key : Key Z :=
  {| key_eqb := Z.eqb; key_leb := Z.leb |}.

(** A list of key columns is compared lexicographically. *)
#[export] Instance pair_Key {A B : Type} `{Key A} `{Key B} : Key (A * B) :=
  {| key_eqb := fun p q => key_eqb (fst p) (fst q) && key_eqb (snd p) (snd q);
     key_leb := fun p q =>
       if key_eqb (fst p) (fst q) then key_leb (snd p) (snd q)
       else key_leb (fst p) (fst q) |}.

(** The key columns used by the script.  A row with a missing key cell has
    no key: [groupby] (dropna=True) leaves it out. *)
Definition by_country (r : Row) : option string := country r.

Definition by_wbincome (r : Row) : option string := wbincome r.

Definition by_country_iso3 (r : Row) : option (string * string) :=
  match country r, iso3 r with
  | Some c, Some i => Some (c, i)
  | _, _ => None
  end.

Definition by_year_sex (r : Row) : option (Z * string) :=
  match sex r with
  | Some s => Some (year r, s)
  | None => None
  end.

Definition Qsum (l : list Q) : Q := fold_left Qplus l 0.

Definition Qlen {A : Type} (l : list A) : Q := inject_Z (Z.of_nat (length l)).

Section GroupBy.
Context {K : Type} `{Key K}.

(** First occurrences, in order of appearance. *)
Fixpoint unique (l : list K) : list K :=
  match l with
  | [] => []
  | k :: t => k :: filter (fun k' => negb (key_eqb k k')) (unique t)
  end.

Fixpoint insert_key (k : K) (l : list K) : list K :=
  match l with
  | [] => [k]
  | h :: t => if key_leb k h then k :: l else h :: insert_key k t
  end.

Definition sort_keys (l : list K) : list K := fold_right insert_key [] l.

Definition present_keys (byKey : Row -> option K) (df : list Row) : list K :=
  flat_map (fun r => match byKey r with Some k => [k] | None => [] end) df.

(** The group labels: the distinct keys of the frame, sorted. *)
Definition group_keys (byKey : Row -> option K) (df : list Row) : list K :=
  sort_keys (unique (present_keys byKey df)).

(** Per label: the running sum and the number of non-missing values. *)
Fixpoint bump (k : K) (v : Q) (acc : list (K * (Q * nat)))
  : list (K * (Q * nat)) :=
  match acc with
  | [] => []
  | (k', (s, n)) :: t =>
      if key_eqb k k' then (k', (s + v, S n)) :: t
      else (k', (s, n)) :: bump k v t
  end.

(** One row of the single pass: rows without a key and missing values
    are skipped. *)
Definition group_mean_step (byKey : Row -> option K)
           (acc : list (K * (Q * nat))) (r : Row) : list (K * (Q * nat)) :=
  match byKey r, value r with
  | Some k, Some v => bump k v acc
  | _, _ => acc
  end.

Definition group_mean (byKey : Row -> option K) (df : list Row)
  : list (K * (Q * nat)) :=
  fold_left (group_mean_step byKey) df
            (map (fun k => (k, (0, 0%nat))) (group_keys byKey df)).

(** A label that saw no value gets NaN. *)
Definition finish (e : K * (Q * nat)) : K * option Q :=
  let '(k, (s, n)) := e in
  (k, if (n =? 0)%nat then None else Some (s / inject_Z (Z.of_nat n))).

Definition groupby_mean (byKey : Row -> option K) (df : list Row)
  : list (K * option Q) :=
  map finish (group_mean byKey df).

(** *** [DataFrame.nlargest(n, col)] (keep='first') *)

Definition numeric (rows : list (K * option Q)) : list (K * Q) :=
  flat_map (fun r => match snd r with Some v => [(fst r, v)] | None => [] end)
           rows.

Definition is_nan (r : K * option Q) : bool :=
  match snd r with None => true | Some _ => false end.

(** [x] comes earlier in the frame than every row of [l]: it goes in
    front of the first row that is not strictly larger. *)
Fixpoint insert_desc (x : K * Q) (l : list (K * Q)) : list (K * Q) :=
  match l with
  | [] => [x]
  | h :: t => if Qle_bool (snd h) (snd x) then x :: l
              else h :: insert_desc x t
  end.

Definition sort_desc (l : list (K * Q)) : list (K * Q) :=
  fold_right insert_desc [] l.

(** All rows in descending order of the column, ties in frame order,
    rows with NaN last. *)
Definition ranked (rows : list (K * option Q)) : list (K * option Q) :=
  map (fun r => (fst r, Some (snd r))) (sort_desc (numeric rows))
  ++ filter is_nan rows.

Definition nlargest (n : nat) (rows : list (K * option Q))
  : list (K * option Q) :=
  firstn n (ranked rows).
End GroupBy.

(** *** [Series.mean()] (skipna=True) *)

Definition dropna (l : list (option Q)) : list Q :=
  flat_map (fun c => match c with Some v => [v] | None => [] end) l.

Definition series_mean (l : list (option Q)) : option Q :=
  match dropna l with
  | [] => None
  | vs => Some (Qsum vs / Qlen vs)
  end.

(** [df[df.country == country]] *)
Definition country_is (c : string) (r : Row) : bool :=
  match country r with
  | Some s => String.eqb s c
  | None => false
  end.

Definition sex_is (s : string) (r : Row) : bool :=
  match sex r with
  | Some s' => String.eqb s' s
  | None => false
  end.

(** [df.loc[df.sex == s, col].mean()] *)
Definition kpi (df : list Row) (s : string) : option Q :=
  series_mean (map value (filter (sex_is s) df)).

(** ** The aggregates of the script *)

Definition map_df (df_mor : list Row) : list ((string * string) * option Q) :=
  groupby_mean by_country_iso3 df_mor.

Definition grp_prev (df_tob : list Row) : list (string * option Q) :=
  groupby_mean by_wbincome df_tob.

Definition grp_mor (df_mor : list Row) : list (string * option Q) :=
  groupby_mean by_wbincome df_mor.

Definition top_prev (df_tob : list Row) : list (string * option Q) :=
  nlargest 5 (groupby_mean by_country df_tob).

Definition top_mor (df_mor : list Row) : list (string * option Q) :=
  nlargest 5 (groupby_mean by_country df_mor).

(** ** Time series and forecast *)

(** One row of [prev_ts] / [mort_ts] / [df_fut]: the key columns, the
    value column ([prevalence] or [mortality]) and the added [type]. *)
Record TsRow : Type := mkTs {
  ts_year  : Z;
  ts_sex   : string;
  ts_value : option Q;
  ts_type  : string
}.

(** [sort_values("year")]: ascending.  pandas does not fix the order of
    the rows of one year; here they keep theirs. *)
Fixpoint insert_year (x : (Z * string) * option Q)
         (l : list ((Z * string) * option Q)) : list ((Z * string) * option Q) :=
  match l with
  | [] => [x]
  | h :: t => if (fst (fst x) <=? fst (fst h))%Z then x :: l
              else h :: insert_year x t
  end.

Definition sort_values_year (l : list ((Z * string) * option Q))
  : list ((Z * string) * option Q) :=
  fold_right insert_year [] l.

(** [df.groupby(["year","sex"], as_index=False).<col>.mean()
       .sort_values("year")], then [ts["type"] = "Actual"]. *)
Definition actual_ts (df : list Row) : list TsRow :=
  map (fun r => mkTs (fst (fst r)) (snd (fst r)) (snd r) "Actual")
      (sort_values_year (groupby_mean by_year_sex df)).

(** Arithmetic on floats that may be NaN. *)
Definition nan_mul (a b : option Q) : option Q :=
  match a, b with
  | Some p, Some q => Some (p * q)
  | _, _ => None
  end.

Definition nan_add (a b : option Q) : option Q :=
  match a, b with
  | Some p, Some q => Some (p + q)
  | _, _ => None
  end.

Fixpoint all_some (l : list (option Q)) : option (list Q) :=
  match l with
  | [] => Some []
  | Some v :: t => option_map (cons v) (all_some t)
  | None :: _ => None
  end.

Fixpoint zip_mul (xs ys : list Q) : list Q :=
  match xs, ys with
  | a :: xs', b :: ys' => a * b :: zip_mul xs' ys'
  | _, _ => []
  end.

(** The sums of the normal equations of [value = m*year + b]. *)
Definition Sx (xs : list Q) : Q := Qsum xs.
Definition Sxx (xs : list Q) : Q := Qsum (map (fun a => a * a) xs).
Definition Sxy (xs ys : list Q) : Q := Qsum (zip_mul xs ys).
Definition det (xs : list Q) : Q := Qlen xs * Sxx xs - Sx xs * Sx xs.

(** The least-squares slope and intercept. *)
Definition ols_m (xs ys : list Q) : Q :=
  (Qlen xs * Sxy xs ys - Sx xs * Qsum ys) / det xs.

Definition ols_b (xs ys : list Q) : Q :=
  (Qsum ys - ols_m xs ys * Sx xs) / Qlen xs.

(** [np.polyfit(x, y, 1)], returning [(m, b)].
    - an empty [x], or [x] and [y] of different lengths: TypeError;
    - the columns [x] and [1] are divided by their norms before the solve:
      when every [x] is 0 that is 0/0 and the solver does not converge;
    - a NaN in [y] makes both coefficients NaN;
    - when all [x] are equal (rank 1; only a RankWarning is issued) the
      solver returns the least-squares solution of least norm in the scaled
      unknowns, which is [m = mean(y)/(2*x0)], [b = mean(y)/2];
    - otherwise the unique least-squares line. *)
Definition polyfit (x : list Z) (y : list (option Q))
  : result (option Q * option Q) :=
  match x with
  | [] => Err TypeError
  | x0 :: _ =>
      if negb (length x =? length y)%nat then Err TypeError
      else
        let xs := map inject_Z x in
        if Qeq_bool (Sxx xs) 0 then Err LinAlgError
        else
          match all_some y with
          | None => Ok (None, None)
          | Some ys =>
              if Qeq_bool (det xs) 0 then
                let ybar := Qsum ys / Qlen ys in
                Ok (Some (ybar / (2 * inject_Z x0)), Some (ybar / 2))
              else Ok (Some (ols_m xs ys), Some (ols_b xs ys))
          end
  end.

Definition years_future : list Z := [2025; 2030]%Z.

(** The body of the loop over the sexes: fit the line through the series
    [df_sex], then one row per future year. *)
Definition forecast (df_sex : list TsRow) (years : list Z) (sex : string)
  : result (list TsRow) :=
  mb <- polyfit (map ts_year df_sex) (map ts_value df_sex) ;;
  let m := fst mb in
  let b := snd mb in
  Ok (map (fun yr => mkTs yr sex
                          (nan_add (nan_mul m (Some (inject_Z yr))) b)
                          "Forecast")
          years).

(** A [for] loop whose body may raise, threading the list it appends to. *)
Fixpoint for_each {A S : Type} (body : S -> A -> result S) (l : list A) (s : S)
  : result S :=
  match l with
  | [] => Ok s
  | a :: t => s' <- body s a ;; for_each body t s'
  end.

Definition ts_sex_is (s : string) (r : TsRow) : bool := String.eqb (ts_sex r) s.

(** [forecasts = []; for sex in ["Male","Female"]: ...; forecasts.append(..)] *)
Definition forecasts (ts : list TsRow) (years : list Z) : result (list TsRow) :=
  for_each
    (fun acc sex =>
       let df_sex := filter (ts_sex_is sex) ts in
       pts <- forecast df_sex years sex ;;
       Ok (acc ++ pts))
    ["Male"; "Female"] [].

(** [pd.concat([ts, df_fut])] for one dataset. *)
Definition plot_frame (df : list Row) : result (list TsRow) :=
  let ts := actual_ts df in
  df_fut <- forecasts ts years_future ;;
  Ok (ts ++ df_fut).

(** ** The script *)

(** What one run of the script hands to the charts, for the selected
    [country].  The two forecast frames are built last, prevalence first:
    an exception in the first leaves the second unbuilt. *)
Record Report : Type := mkReport {
  male_prev   : option Q;
  female_prev : option Q;
  male_mort   : option Q;
  female_mort : option Q;
  out_map_df  : list ((string * string) * option Q);
  out_grp_prev : list (string * option Q);
  out_grp_mor  : list (string * option Q);
  out_top_prev : list (string * option Q);
  out_top_mor  : list (string * option Q);
  df_plot     : result (list TsRow);
  df_mplot    : result (list TsRow)
}.

Definition dashboard (df_tob df_mor : list Row) (country : string) : Report :=
  let tob := filter (country_is country) df_tob in
  let mor := filter (country_is country) df_mor in
  let plot := plot_frame tob in
  {| male_prev   := kpi tob "Male";
     female_prev := kpi tob "Female";
     male_mort   := kpi mor "Male";
     female_mort := kpi mor "Female";
     out_map_df  := map_df df_mor;
     out_grp_prev := grp_prev df_tob;
     out_grp_mor  := grp_mor df_mor;
     out_top_prev := top_prev df_tob;
     out_top_mor  := top_mor df_mor;
     df_plot     := plot;
     df_mplot    := _ <- plot ;; plot_frame mor |}.

(** ** The country selector *)

(** [sorted(df_tob.country.unique())].  A missing country is a float NaN
    among strings: comparing the two raises, so the sort fails as soon as
    the frame has a missing and a named country; NaN alone sorts. *)
Definition sorted_countries (df_tob : list Row) : result (list (option string)) :=
  let names := unique (present_keys by_country df_tob) in
  if existsb (fun r => match country r with None => true | Some _ => false end)
             df_tob
  then match names with
       | [] => Ok [None]
       | _ :: _ => Err TypeError
       end
  else Ok (map Some (sort_keys names)).

(** [l.index(s)], called only when [s] is in [l]. *)
Fixpoint list_index (s : string) (l : list (option string)) : nat :=
  match l with
  | [] => 0
  | c :: t => if isin c [s] then 0 else S (list_index s t)
  end.

(** The [index=] argument of the select box:
    [sorted(..).index("Lebanon") if "Lebanon" in df_tob.country.unique() else 0]. *)
Definition default_index (df_tob : list Row) : result nat :=
  options <- sorted_countries df_tob ;;
  if existsb (country_is "Lebanon") df_tob
  then Ok (list_index "Lebanon" options)
  else Ok 0%nat.

(** The option the select box shows first ([None]: no option at all). *)
Definition default_country (df_tob : list Row) : result (option (option string)) :=
  options <- sorted_countries df_tob ;;
  i <- default_index df_tob ;;
  Ok (nth_error options i).

(** ** The stacked breakdown *)

Definition all_inds : list string :=
  [ "Current cigarette smoking among adolescents (%)";
    "Current e-cigarette use among adolescents (%)";
    "Current smokeless tobacco use among adolescents (%)";
    "Current tobacco smoking among adolescents (%)";
    "Current tobacco use among adolescents (%)";
    "Daily cigarette smoking among adolescents (%)";
    "Daily tobacco smoking among adolescents (%)";
    "Current cigarette smoking among adults (%)";
    "Current e-cigarette use among adults (%)";
    "Current smokeless tobacco use among adults (%)";
    "Current tobacco smoking among adults (%)";
    "Current tobacco use among adults (%)";
    "Daily cigarette smoking among adults (%)";
    "Daily e-cigarette use among adults (%)";
    "Daily smokeless tobacco use among adults (%)";
    "Daily tobacco smoking among adults (%)";
    "Daily tobacco use among adults (%)" ].

(** [astype(str)] on an integer: its decimal numeral. *)
Definition astype_str (y : Z) : string :=
  DecimalString.NilZero.string_of_int (Z.to_int y).

(** [df['year'].astype(str) + ' - ' + df['sex']]; a missing sex gives a
    missing label. *)
Definition year_sex (r : Row) : option string :=
  match sex r with
  | Some s => Some ((astype_str (year r) ++ " - ") ++ s)%string
  | None => None
  end.

(** [df_tob[(df_tob.country == country) & df_tob.indicator_name.isin(all_inds)]]
    with the added column [year_sex]. *)
Definition df_stack (df_tob : list Row) (country : string)
  : list (Row * option string) :=
  map (fun r => (r, year_sex r))
      (filter (fun r => country_is country r && isin (indicator_name r) all_inds)
              df_tob).

(** ** Specification-level notions

    The definitions below are not taken from the script: they say, in the
    words of the specification, what the pipeline is compared with. *)

(** The laws a key type must satisfy. *)
Class KeyLaws (K : Type) `{Key K} : Prop := {
  key_eqb_eq : forall a b : K, key_eqb a b = true <-> a = b
}.

(** The sum of a list of numbers, first element outermost. *)
Definition total (l : list Q) : Q := fold_right Qplus 0 l.

(** [m] is the arithmetic mean of the numbers [vs]; the mean of no number
    is undefined (NaN). *)
Definition is_mean_of (m : option Q) (vs : list Q) : Prop :=
  match m with
  | None => vs = []
  | Some v => vs <> [] /\ v == total vs / Qlen vs
  end.

(** The non-missing values of the rows of [df] whose key is [k]. *)
Definition group_values {K : Type} `{Key K} (byKey : Row -> option K)
           (k : K) (df : list Row) : list Q :=
  dropna (map value
              (filter (fun r => match byKey r with
                                | Some k' => key_eqb k' k
                                | None => false
                                end) df)).

(** [k] is the key of some row of [df]. *)
Definition key_present {K : Type} (byKey : Row -> option K)
           (k : K) (df : list Row) : Prop :=
  exists r, In r df /\ byKey r = Some k.

(** The order [nlargest] ranks by: a NaN ranks below every number. *)
Definition mean_ge (a b : option Q) : Prop :=
  match b with
  | None => True
  | Some y => match a with
              | Some x => y <= x
              | None => False
              end
  end.

(** Descending order of the numeric rows. *)
Definition desc {K : Type} (a b : K * Q) : Prop := snd b <= snd a.

(** Row [a] ranks at least as high as row [b]. *)
Definition ranks_above {K : Type} (a b : K * option Q) : Prop :=
  mean_ge (snd a) (snd b).

(** A numeric row as a row of the frame. *)
Definition inj {K : Type} (r : K * Q) : K * option Q := (fst r, Some (snd r)).

(** The row's mean is (equal to) [m]. *)
Definition same_mean {K : Type} (m : option Q) (r : K * option Q) : bool :=
  match m, snd r with
  | None, None => true
  | Some q, Some v => Qeq_bool v q
  | _, _ => false
  end.

(** The (year, value) points of a series whose values are all numbers. *)
Definition points (df_sex : list TsRow) : list (Q * Q) :=
  flat_map (fun r => match ts_value r with
                     | Some v => [(inject_Z (ts_year r), v)]
                     | None => []
                     end) df_sex.

(** The sum of squared residuals of the line [m*x + b]. *)
Definition sse (m b : Q) (pts : list (Q * Q)) : Q :=
  total (map (fun p => (snd p - (m * fst p + b)) * (snd p - (m * fst p + b)))
             pts).

(** Two points of the series lie in different years. *)
Definition two_distinct_years (df_sex : list TsRow) : Prop :=
  exists r1 r2, In r1 df_sex /\ In r2 df_sex /\ ts_year r1 <> ts_year r2.

(** The years of the series are calendar years, 1 to 9999: the range in
    which the float64 fit stays far from numpy's rank tolerance. *)
Definition calendar_years (df_sex : list TsRow) : Prop :=
  forall r, In r df_sex -> (1 <= ts_year r <= 9999)%Z.

(** A retained raw row and the loaded row made from it. *)
Definition renamed (raw : RawRow) (r : Row) : Prop :=
  country r = setting raw /\
  astype_int (date raw) = Ok (year r) /\
  sex r = subgroup raw /\
  indicator_name r = raw_indicator raw /\
  value r = estimate raw /\
  iso3 r = raw_iso3 raw /\
  wbincome r = raw_wbincome raw.

(** The integer part of a number: rounded toward zero. *)
Definition integer_part (q : Q) : Z :=
  if Qle_bool 0 q then Qfloor q else Qceiling q.

(** [y] is the date cell [d] cast to an int64: [d] holds a number; [y] is
    an int64 that differs from the integer part of that number by a
    multiple of 2^64, and is that integer part when it fits an int64. *)
Definition year_is_cast (d : option Q) (y : Z) : Prop :=
  exists q,
    d = Some q /\
    (- 2 ^ 63 <= y < 2 ^ 63)%Z /\
    (exists k, y = integer_part q + k * 2 ^ 64)%Z /\
    ((- 2 ^ 63 <= integer_part q < 2 ^ 63)%Z -> y = integer_part q).

(** The loaded row [r] is the raw row [raw] with setting, date, subgroup
    and estimate renamed to country, year, sex and value, the year cast to
    an integer, the other columns kept. *)
Definition normalized_from (raw : RawRow) (r : Row) : Prop :=
  country r = setting raw /\
  year_is_cast (date raw) (year r) /\
  sex r = subgroup raw /\
  indicator_name r = raw_indicator raw /\
  value r = estimate raw /\
  iso3 r = raw_iso3 raw /\
  wbincome r = raw_wbincome raw.

(** The non-missing values of the rows of [df] whose country is [c] and
    whose sex is [s], in row order. *)
Fixpoint slice_of (df : list Row) (c s : string) : list Q :=
  match df with
  | [] => []
  | r :: t =>
      match country r, sex r, value r with
      | Some c', Some s', Some v =>
          if string_dec c' c then
            if string_dec s' s then v :: slice_of t c s else slice_of t c s
          else slice_of t c s
      | _, _, _ => slice_of t c s
      end
  end.

(** A source is valid for an indicator list when every row the filter
    retains has a numeric date. *)
Definition valid_source (path : list RawRow) (indicators : list string) : Prop :=
  forall raw, In raw path -> keep indicators raw = true -> date raw <> None.

(** The laws of the order the groups are sorted by. *)
Class KeyOrder (K : Type) `{Key K} : Prop := {
  key_leb_total : forall a b : K, key_leb a b = true \/ key_leb b a = true;
  key_leb_trans : forall a b c : K,
      key_leb a b = true -> key_leb b c = true -> key_leb a c = true;
  key_leb_antisym : forall a b : K,
      key_leb a b = true -> key_leb b a = true -> a = b
}.

(** [a] comes strictly before [b] in the order of the keys. *)
Definition key_lt {K : Type} `{Key K} (a b : K) : Prop :=
  key_leb a b = true /\ a <> b.

(** Two means are the same number, or both NaN. *)
Definition same_value (a b : option Q) : Prop :=
  match a, b with
  | Some x, Some y => x == y
  | None, None => True
  | _, _ => False
  end.

(** No character of the string is a space. *)
Fixpoint no_space (s : string) : bool :=
  match s with
  | EmptyString => true
  | String a t => negb (Ascii.eqb a " ") && no_space t
  end.

(** ** Sample data *)

Definition tobacco_indicator : string :=
  "Estimate of current tobacco use prevalence (age-standardized) (%)".

(** A sheet with a retained row whose date is fractional, a row of another
    subgroup without a date, a row of another indicator and a row of the
    mortality indicator. *)
Definition sample_sheet : list RawRow :=
  [ mkRawRow (Some "Lebanon") (Some (40401 # 20)) (Some "Male")
             (Some tobacco_indicator) (Some 20) (Some "LBN") (Some "Upper");
    mkRawRow (Some "Lebanon") None (Some "Both sexes")
             (Some tobacco_indicator) (Some 21) (Some "LBN") (Some "Upper");
    mkRawRow (Some "Lebanon") (Some 2020) (Some "Female")
             (Some "Another indicator") (Some 22) (Some "LBN") (Some "Upper");
    mkRawRow (Some "Jordan") (Some 2019) (Some "Female")
             (Some mortality_indicator) None (Some "JOR") (Some "Lower") ].

Definition row (c : string) (y : Z) (s : string) (v : option Q) : Row :=
  mkRow (Some c) y (Some s) (Some tobacco_indicator) v (Some c) (Some "Upper").

(** Countries A and B with values, country C with a missing value only,
    and a row without a country. *)
Definition sample_rows : list Row :=
  [ row "B" 2020 "Male" (Some 50);
    row "A" 2020 "Male" (Some 10);
    row "C" 2020 "Male" None;
    row "A" 2020 "Female" (Some 30);
    mkRow None 2020 (Some "Male") (Some tobacco_indicator) (Some 7) None None ].

(** Seven aggregates: a three-way tie at 30, one NaN. *)
Definition sample_aggregates : list (string * option Q) :=
  [ ("A", Some 30); ("B", Some 10); ("C", Some 30); ("D", None);
    ("E", Some 50); ("F", Some 30); ("G", Some 20) ].

(** The male series of the end-to-end example: three collinear points. *)
Definition lebanon_male : list TsRow :=
  [ mkTs 2018 "Male" (Some 20) "Actual";
    mkTs 2019 "Male" (Some 22) "Actual";
    mkTs 2020 "Male" (Some 24) "Actual" ].

(** The single-point series. *)
Definition single_point : list TsRow := [ mkTs 2020 "Male" (Some 5) "Actual" ].

(** A frame with a female series of two years and no male row. *)
Definition female_only : list TsRow :=
  [ mkTs 2019 "Female" (Some 10) "Actual";
    mkTs 2020 "Female" (Some 12) "Actual" ].

(** The sample frame without its row of unknown country. *)
Definition named_rows : list Row :=
  [ row "B" 2020 "Male" (Some 50);
    row "A" 2020 "Male" (Some 10);
    row "C" 2020 "Male" None;
    row "A" 2020 "Female" (Some 30) ].

(** Two years of both sexes for one country. *)
Definition both_sexes : list Row :=
  [ row "Lebanon" 2019 "Male" (Some 40);
    row "Lebanon" 2018 "Male" (Some 42);
    row "Lebanon" 2018 "Female" (Some 30);
    row "Lebanon" 2019 "Female" (Some 28);
    row "Jordan" 2019 "Male" (Some 50) ].

(** Rows of one of the breakdown indicators. *)
Definition stack_sheet : list RawRow :=
  [ mkRawRow (Some "Lebanon") (Some 2019) (Some "Male")
             (Some "Daily tobacco use among adults (%)") (Some 30) None None;
    mkRawRow (Some "Lebanon") (Some 2019) (Some "Female")
             (Some "Daily tobacco use among adults (%)") (Some 20) None None;
    mkRawRow (Some "Jordan") (Some 2019) (Some "Male")
             (Some "Daily tobacco use among adults (%)") (Some 40) None None ].

(** A series with three distinct years whose middle yearly mean is NaN. *)
Definition nan_series : list TsRow :=
  [ mkTs 2018 "Male" (Some 20) "Actual";
    mkTs 2019 "Male" None "Actual";
    mkTs 2020 "Male" (Some 24) "Actual" ].

(** * Properties *)

(** ** Loaders *)

Lemma mapM_Forall2 {A B : Type} (f : A -> result B) (l : list A) (out : list B) :
  mapM f l = Ok out -> Forall2 (fun a b => f a = Ok b) l out.
Proof.
  revert out; induction l as [|a t IH]; intros out Hm; simpl in Hm.
  - injection Hm as <-. constructor.
  - destruct (f a) as [b|e] eqn:Hfa; simpl in Hm; [|discriminate].
    destruct (mapM f t) as [bs|e] eqn:Ht; simpl in Hm; [|discriminate].
    injection Hm as <-. constructor; auto.
Qed.

Lemma mapM_total {A B : Type} (f : A -> result B) (l : list A) :
  (forall a, In a l -> exists b, f a = Ok b) -> exists out, mapM f l = Ok out.
Proof.
  induction l as [|a t IH]; intros Hall; simpl.
  - now exists [].
  - destruct (Hall a (or_introl eq_refl)) as [b ->]; simpl.
    destruct IH as [bs ->]; [intros; apply Hall; now right|].
    simpl. now exists (b :: bs).
Qed.

Lemma Forall2_In_r {A B : Type} (R : A -> B -> Prop) l l' :
  Forall2 R l l' -> forall b, In b l' -> exists a, In a l /\ R a b.
Proof.
  induction 1 as [|a b l l' Hab _ IH]; intros c Hc; [contradiction|].
  destruct Hc as [<-|Hc].
  - exists a; split; [now left|assumption].
  - destruct (IH c Hc) as (a' & Ha' & HR). exists a'; split; [now right|assumption].
Qed.

Lemma normalize_renamed raw r : normalize raw = Ok r -> renamed raw r.
Proof.
  unfold normalize, renamed.
  destruct (astype_int (date raw)) as [y|e] eqn:Hy; simpl; [|discriminate].
  intros Hr; injection Hr as <-; simpl. repeat split; reflexivity.
Qed.

Lemma isin_In c values :
  isin c values = true <-> exists s, c = Some s /\ In s values.
Proof.
  unfold isin; destruct c as [s|].
  - rewrite existsb_exists; split.
    + intros (x & Hx & Heq). apply String.eqb_eq in Heq; subst x. now exists s.
    + intros (s' & Hs & Hin). injection Hs as <-. exists s; split; [assumption|].
      apply String.eqb_refl.
  - split; [discriminate|]. intros (s & Hs & _); discriminate.
Qed.

Lemma int64_bounds : (2 ^ 63 = 9223372036854775808 /\ 2 ^ 64 = 18446744073709551616)%Z.
Proof. split; reflexivity. Qed.

Lemma wrap_int64_range (z : Z) : (- 2 ^ 63 <= wrap_int64 z < 2 ^ 63)%Z.
Proof.
  unfold wrap_int64. destruct int64_bounds as [-> ->].
  pose proof (Z.mod_pos_bound (z + 9223372036854775808) 18446744073709551616).
  lia.
Qed.

Lemma wrap_int64_congruent (z : Z) : exists k, (wrap_int64 z = z + k * 2 ^ 64)%Z.
Proof.
  unfold wrap_int64. destruct int64_bounds as [-> ->].
  exists (- ((z + 9223372036854775808) / 18446744073709551616))%Z.
  pose proof (Z.div_mod (z + 9223372036854775808) 18446744073709551616).
  lia.
Qed.

Lemma wrap_int64_small (z : Z) :
  (- 2 ^ 63 <= z < 2 ^ 63)%Z -> wrap_int64 z = z.
Proof.
  unfold wrap_int64. destruct int64_bounds as [-> ->]. intros Hz.
  rewrite Z.mod_small; lia.
Qed.

(** Truncating division of numerator by denominator is the integer part. *)
Lemma quot_integer_part (q : Q) :
  (Qnum q ÷ Z.pos (Qden q))%Z = integer_part q.
Proof.
  destruct q as [n d]. unfold integer_part. simpl.
  destruct (Qle_bool 0 (n # d)) eqn:E.
  - apply Qle_bool_iff in E. unfold Qle in E; simpl in E.
    apply Z.quot_div_nonneg; lia.
  - assert (Hn : (n < 0)%Z).
    { destruct (Z_lt_le_dec n 0) as [|Hge]; [assumption|].
      assert (Hq : 0 <= n # d) by (unfold Qle; simpl; lia).
      apply Qle_bool_iff in Hq. congruence. }
    unfold Qceiling. simpl.
    rewrite <- (Z.opp_involutive n) at 1.
    rewrite Z.quot_opp_l by lia. f_equal.
    apply Z.quot_div_nonneg; lia.
Qed.

Lemma astype_int_cast (d : option Q) (y : Z) :
  astype_int d = Ok y -> year_is_cast d y.
Proof.
  destruct d as [q|]; simpl; [|discriminate].
  intros Hy; injection Hy as <-. exists q. rewrite quot_integer_part.
  split; [reflexivity|]. split; [apply wrap_int64_range|].
  split; [apply wrap_int64_congruent|apply wrap_int64_small].
Qed.

Lemma normalize_normalized_from raw r :
  normalize raw = Ok r -> normalized_from raw r.
Proof.
  intros Hn. apply normalize_renamed in Hn.
  destruct Hn as (Hc & Hy & Hs & Hi & Hv & Hiso & Hw).
  unfold normalized_from. repeat split; try assumption.
  now apply astype_int_cast.
Qed.

Lemma load_tobacco_rows path indicators :
  valid_source path indicators ->
  exists out,
    load_tobacco path indicators = Ok out /\
    Forall2 normalized_from (filter (keep indicators) path) out /\
    forall r, In r out ->
      (sex r = Some "Male" \/ sex r = Some "Female") /\
      (exists i, indicator_name r = Some i /\ In i indicators) /\
      exists raw, In raw path /\ normalized_from raw r.
Proof.
  intros Hvalid. unfold load_tobacco.
  destruct (mapM_total normalize (filter (keep indicators) path)) as [out Hout].
  { intros raw Hin. apply filter_In in Hin as [Hin Hk].
    specialize (Hvalid raw Hin Hk). unfold normalize.
    destruct (date raw) as [q|]; [|contradiction]. simpl. eauto. }
  exists out; split; [assumption|].
  apply mapM_Forall2 in Hout.
  assert (HF : Forall2 normalized_from (filter (keep indicators) path) out).
  { eapply Forall2_impl; [|exact Hout]. intros a b; apply normalize_normalized_from. }
  split; [assumption|].
  intros r Hr. destruct (Forall2_In_r _ _ _ HF r Hr) as (raw & Hraw & Hren).
  apply filter_In in Hraw as [Hraw Hk].
  unfold keep in Hk. apply andb_true_iff in Hk as [Hi Hs].
  apply isin_In in Hi as (i & Hi & Hini).
  apply isin_In in Hs as (s & Hs & Hins).
  pose proof Hren as (_ & _ & Hsex & Hind & _).
  split; [|split].
  - rewrite Hsex, Hs. simpl in Hins.
    destruct Hins as [<-|[<-|[]]]; [now left|now right].
  - exists i. rewrite Hind. now split.
  - now exists raw.
Qed.

(** C3: for every valid source and indicator list, both loaders return a
    frame; each of its rows has sex Male or Female and an indicator of the
    supplied list (the fixed one for the mortality loader), and is a
    retained raw row with setting, date, subgroup and estimate renamed to
    country, year, sex and value.  The year is the date cast to an
    integer: the integer part of the date (rounded toward zero) whenever
    that fits an int64, and an int64 congruent to it modulo 2^64
    otherwise.  No row with another subgroup appears. *)
Theorem load_output_normalized (path : list RawRow) (indicators : list string) :
  (valid_source path indicators ->
   exists out,
     load_tobacco path indicators = Ok out /\
     Forall2 normalized_from (filter (keep indicators) path) out /\
     forall r, In r out ->
       (sex r = Some "Male" \/ sex r = Some "Female") /\
       (exists i, indicator_name r = Some i /\ In i indicators) /\
       exists raw, In raw path /\ normalized_from raw r) /\
  (valid_source path [mortality_indicator] ->
   exists out,
     load_mortality path = Ok out /\
     Forall2 normalized_from (filter (keep [mortality_indicator]) path) out /\
     forall r, In r out ->
       (sex r = Some "Male" \/ sex r = Some "Female") /\
       (exists i, indicator_name r = Some i /\ In i [mortality_indicator]) /\
       exists raw, In raw path /\ normalized_from raw r).
Proof.
  split; intros Hv.
  - now apply load_tobacco_rows.
  - exact (load_tobacco_rows path [mortality_indicator] Hv).
Qed.

Lemma load_output_normalized_witness :
  exists out,
    load_tobacco sample_sheet [tobacco_indicator] = Ok out /\
    Forall2 normalized_from (filter (keep [tobacco_indicator]) sample_sheet) out /\
    forall r, In r out ->
      (sex r = Some "Male" \/ sex r = Some "Female") /\
      (exists i, indicator_name r = Some i /\ In i [tobacco_indicator]) /\
      exists raw, In raw sample_sheet /\ normalized_from raw r.
Proof.
  apply (proj1 (load_output_normalized sample_sheet [tobacco_indicator])).
  intros raw Hin Hk. simpl in Hin.
  destruct Hin as [<-|[<-|[<-|[<-|[]]]]]; vm_compute in Hk;
    try discriminate Hk; simpl; discriminate.
Defined.
(** The cast truncates: the sample row dated 2020.05 is loaded as 2020. *)
Example load_tobacco_sample :
  load_tobacco sample_sheet [tobacco_indicator]
  = Ok [ mkRow (Some "Lebanon") 2020 (Some "Male") (Some tobacco_indicator)
               (Some 20) (Some "LBN") (Some "Upper") ].
Proof. reflexivity. Qed.

(** A retained row without a date makes the cast, hence the load, fail. *)
Example load_tobacco_missing_date :
  load_tobacco [mkRawRow (Some "Lebanon") None (Some "Male")
                         (Some tobacco_indicator) (Some 20) None None]
               [tobacco_indicator]
  = Err IntCastingNaNError.
Proof. reflexivity. Qed.

(** C10: the mortality loader takes the sheet only; it is the generic load
    with the one fixed indicator, so every row it returns carries that
    indicator name. *)
Theorem load_mortality_fixed_indicator (path : list RawRow) :
  load_mortality path = load_tobacco path [mortality_indicator] /\
  forall out, load_mortality path = Ok out ->
    forall r, In r out -> indicator_name r = Some mortality_indicator.
Proof.
  split; [reflexivity|].
  intros out Hout r Hr. unfold load_mortality in Hout.
  apply mapM_Forall2 in Hout.
  destruct (Forall2_In_r _ _ _ Hout r Hr) as (raw & Hraw & Hn).
  apply filter_In in Hraw as [_ Hk].
  apply normalize_renamed in Hn. destruct Hn as (_ & _ & _ & Hind & _).
  unfold keep in Hk. apply andb_true_iff in Hk as [Hi _].
  apply isin_In in Hi as (i & Hi & [<-|[]]).
  now rewrite Hind.
Qed.

Lemma load_mortality_fixed_indicator_witness :
  indicator_name (mkRow (Some "Jordan") 2019 (Some "Female")
                        (Some mortality_indicator) None (Some "JOR") (Some "Lower"))
  = Some mortality_indicator.
Proof.
  apply (proj2 (load_mortality_fixed_indicator sample_sheet)
               [ mkRow (Some "Jordan") 2019 (Some "Female")
                       (Some mortality_indicator) None (Some "JOR") (Some "Lower") ]).
  - reflexivity.
  - now left.
Defined.

(** ** Keys *)

#[export] Instance string_KeyLaws : KeyLaws string.
Proof. constructor. intros a b. apply String.eqb_eq. Qed.

#[export] Instance Z_KeyLaws : KeyLaws Z.
Proof. constructor. intros a b. apply Z.eqb_eq. Qed.

#[export] Instance pair_KeyLaws {A B : Type} `{KeyLaws A} `{KeyLaws B} :
  KeyLaws (A * B).
Proof.
  constructor. intros [a b] [c d]. simpl.
  rewrite andb_true_iff, !key_eqb_eq. split.
  - intros [-> ->]; reflexivity.
  - intros Heq; injection Heq as -> ->; now split.
Qed.

(** ** Sums *)

Lemma fold_left_Qplus_total (l : list Q) (a : Q) :
  fold_left Qplus l a == a + total l.
Proof.
  revert a; induction l as [|x t IH]; intros a; simpl.
  - ring.
  - rewrite IH. ring.
Qed.

Lemma Qsum_total (l : list Q) : Qsum l == total l.
Proof. unfold Qsum. rewrite fold_left_Qplus_total. ring. Qed.

Lemma Qlen_cons {A : Type} (a : A) (l : list A) : Qlen (a :: l) == Qlen l + 1.
Proof.
  unfold Qlen. cbn [length]. rewrite Nat2Z.inj_succ, <- Z.add_1_r.
  rewrite inject_Z_plus. reflexivity.
Qed.

Lemma Qlen_nonneg {A : Type} (l : list A) : 0 <= Qlen l.
Proof.
  unfold Qlen. change 0 with (inject_Z 0). rewrite <- Zle_Qle. lia.
Qed.

Lemma Qlen_pos {A : Type} (l : list A) : l <> [] -> 0 < Qlen l.
Proof.
  destruct l as [|a t]; [congruence|]. intros _.
  rewrite Qlen_cons. pose proof (Qlen_nonneg t). lra.
Qed.

(** ** Grouped means *)

Section GroupByFacts.
Context {K : Type} `{KeyLaws K}.

Lemma key_eqb_refl (k : K) : key_eqb k k = true.
Proof. now apply key_eqb_eq. Qed.

Lemma key_eqb_neq (a b : K) : key_eqb a b = false <-> a <> b.
Proof.
  rewrite <- key_eqb_eq. destruct (key_eqb a b); split; congruence.
Qed.

Lemma unique_In (l : list K) (k : K) : In k (unique l) <-> In k l.
Proof.
  induction l as [|h t IH]; simpl; [tauto|].
  rewrite filter_In, IH, negb_true_iff, key_eqb_neq.
  split.
  - intros [->|[Hin _]]; auto.
  - intros [->|Hin]; auto.
    destruct (key_eqb h k) eqn:E.
    + apply key_eqb_eq in E. now left.
    + apply key_eqb_neq in E. right. now split.
Qed.

Lemma unique_NoDup (l : list K) : NoDup (unique l).
Proof.
  induction l as [|h t IH]; simpl; constructor.
  - rewrite filter_In, key_eqb_refl. simpl. intros [_ Hf]; discriminate.
  - now apply NoDup_filter.
Qed.

Lemma insert_key_perm (k : K) (l : list K) : Permutation (insert_key k l) (k :: l).
Proof.
  induction l as [|h t IH]; simpl; [reflexivity|].
  destruct (key_leb k h); [reflexivity|].
  rewrite IH. apply perm_swap.
Qed.

Lemma sort_keys_perm (l : list K) : Permutation (sort_keys l) l.
Proof.
  induction l as [|h t IH]; simpl; [reflexivity|].
  rewrite insert_key_perm. now constructor.
Qed.

Lemma present_keys_In (byKey : Row -> option K) (df : list Row) (k : K) :
  In k (present_keys byKey df) <-> key_present byKey k df.
Proof.
  unfold present_keys, key_present. rewrite in_flat_map. split.
  - intros (r & Hr & Hk). exists r; split; [assumption|].
    destruct (byKey r) as [k'|]; simpl in Hk; [|contradiction].
    destruct Hk as [->|[]]. reflexivity.
  - intros (r & Hr & Hk). exists r; split; [assumption|].
    rewrite Hk. now left.
Qed.

Lemma group_keys_In (byKey : Row -> option K) (df : list Row) (k : K) :
  In k (group_keys byKey df) <-> key_present byKey k df.
Proof.
  unfold group_keys.
  rewrite <- present_keys_In, <- (unique_In (present_keys byKey df)).
  split; apply Permutation_in;
    [apply sort_keys_perm | symmetry; apply sort_keys_perm].
Qed.

Lemma group_keys_NoDup (byKey : Row -> option K) (df : list Row) :
  NoDup (group_keys byKey df).
Proof.
  unfold group_keys.
  eapply Permutation_NoDup; [symmetry; apply sort_keys_perm|].
  apply unique_NoDup.
Qed.

(** On distinct labels, [bump] updates the one entry of the key. *)
Lemma bump_map (k : K) (v : Q) (acc : list (K * (Q * nat))) :
  NoDup (map fst acc) ->
  bump k v acc
  = map (fun e => if key_eqb k (fst e)
                  then (fst e, (fst (snd e) + v, S (snd (snd e))))
                  else e) acc.
Proof.
  induction acc as [|[k' [s n]] t IH]; intros Hnd; simpl; [reflexivity|].
  inversion Hnd as [|? ? Hnotin Hnd']; subst.
  destruct (key_eqb k k') eqn:E.
  - apply key_eqb_eq in E; subst k'. f_equal.
    clear IH Hnd Hnd'. induction t as [|[k2 [s2 n2]] t IHt]; simpl; [reflexivity|].
    simpl in Hnotin.
    destruct (key_eqb k k2) eqn:E2.
    + apply key_eqb_eq in E2. exfalso. apply Hnotin. left. now symmetry.
    + f_equal. apply IHt. intros Hin. apply Hnotin. now right.
  - f_equal. now apply IH.
Qed.

Lemma bump_keys (k : K) (v : Q) (acc : list (K * (Q * nat))) :
  map fst (bump k v acc) = map fst acc.
Proof.
  induction acc as [|[k' [s n]] t IH]; simpl; [reflexivity|].
  destruct (key_eqb k k'); simpl; [reflexivity|]. now rewrite IH.
Qed.

Lemma group_values_cons (byKey : Row -> option K) (k : K) (r : Row) (df : list Row) :
  group_values byKey k (r :: df)
  = match byKey r, value r with
    | Some k', Some v => if key_eqb k' k then v :: group_values byKey k df
                         else group_values byKey k df
    | _, _ => group_values byKey k df
    end.
Proof.
  unfold group_values. simpl.
  destruct (byKey r) as [k'|]; [|reflexivity].
  destruct (key_eqb k' k); simpl.
  - destruct (value r); reflexivity.
  - destruct (value r); reflexivity.
Qed.

(** The single pass leaves, for every label, the sum and the count of
    the group's non-missing values on top of what it started from. *)
Lemma fold_group_mean_step (byKey : Row -> option K) (df : list Row) :
  forall acc, NoDup (map fst acc) ->
  fold_left (group_mean_step byKey) df acc
  = map (fun e =>
           (fst e,
            (fold_left Qplus (group_values byKey (fst e) df) (fst (snd e)),
             (snd (snd e) + length (group_values byKey (fst e) df))%nat)))
        acc.
Proof.
  induction df as [|r df IH]; intros acc Hnd.
  - simpl. rewrite <- (map_id acc) at 1. apply map_ext.
    intros [k [s n]]; simpl. now rewrite Nat.add_0_r.
  - cbn [fold_left]. rewrite IH.
    + unfold group_mean_step.
      destruct (byKey r) as [kr|] eqn:Hk.
      * destruct (value r) as [v|] eqn:Hv.
        -- rewrite bump_map by assumption. rewrite map_map.
           apply map_ext. intros [k [s n]]. cbn [fst snd].
           rewrite group_values_cons, Hk, Hv.
           destruct (key_eqb kr k); cbn [fst snd fold_left length].
           ++ now rewrite Nat.add_succ_r.
           ++ reflexivity.
        -- apply map_ext. intros [k [s n]]. cbn [fst snd].
           now rewrite group_values_cons, Hk, Hv.
      * apply map_ext. intros [k [s n]]. cbn [fst snd].
        now rewrite group_values_cons, Hk.
    + unfold group_mean_step.
      destruct (byKey r); [|assumption].
      destruct (value r); [|assumption].
      now rewrite bump_keys.
Qed.

(** [groupby(..).mean()] in closed form: one row per label, holding the
    sum of the group's non-missing values over their number. *)
Lemma groupby_mean_closed (byKey : Row -> option K) (df : list Row) :
  groupby_mean byKey df
  = map (fun k =>
           (k, if (length (group_values byKey k df) =? 0)%nat then None
               else Some (Qsum (group_values byKey k df)
                          / Qlen (group_values byKey k df))))
        (group_keys byKey df).
Proof.
  unfold groupby_mean, group_mean.
  rewrite fold_group_mean_step.
  - rewrite !map_map. apply map_ext. intros k. reflexivity.
  - rewrite map_map. simpl. rewrite map_id. apply group_keys_NoDup.
Qed.

Lemma groupby_mean_keys (byKey : Row -> option K) (df : list Row) :
  map fst (groupby_mean byKey df) = group_keys byKey df.
Proof.
  rewrite groupby_mean_closed, map_map. simpl. apply map_id.
Qed.

Lemma groupby_mean_row (byKey : Row -> option K) (df : list Row) k m :
  In (k, m) (groupby_mean byKey df) ->
  key_present byKey k df /\
  is_mean_of m (group_values byKey k df) /\
  (m = None <-> group_values byKey k df = []).
Proof.
  rewrite groupby_mean_closed, in_map_iff.
  intros (k' & Heq & Hin). injection Heq as -> <-.
  split; [now apply group_keys_In|].
  destruct (group_values byKey k df) as [|v vs] eqn:Hgv; simpl.
  - split; [reflexivity|]. tauto.
  - split.
    + split; [discriminate|]. now rewrite Qsum_total.
    + split; discriminate.
Qed.
End GroupByFacts.

(** C1: the grouped mean has one row per distinct key present in the
    frame, no other row, and the mean of each row is the arithmetic mean
    of exactly the non-missing values of the rows with that key (missing
    values enter neither the sum nor the count). *)
Theorem groupby_mean_spec {K : Type} `{KeyLaws K}
        (byKey : Row -> option K) (df : list Row) :
  let out := groupby_mean byKey df in
  NoDup (map fst out) /\
  (forall k, In k (map fst out) <-> key_present byKey k df) /\
  (forall ks, NoDup ks -> (forall k, In k ks <-> key_present byKey k df) ->
              length out = length ks) /\
  (forall k m, In (k, m) out -> is_mean_of m (group_values byKey k df)).
Proof.
  cbv zeta. rewrite groupby_mean_keys.
  split; [apply group_keys_NoDup|].
  split; [apply group_keys_In|].
  split.
  - intros ks Hnd Hks.
    rewrite <- (length_map fst), groupby_mean_keys.
    apply Permutation_length, NoDup_Permutation;
      [apply group_keys_NoDup | assumption |].
    intros k. now rewrite group_keys_In, Hks.
  - intros k m Hin. now apply groupby_mean_row in Hin.
Qed.

Lemma groupby_mean_spec_witness :
  let out := groupby_mean by_country sample_rows in
  NoDup (map fst out) /\
  (forall k, In k (map fst out) <-> key_present by_country k sample_rows) /\
  (forall ks, NoDup ks ->
              (forall k, In k ks <-> key_present by_country k sample_rows) ->
              length out = length ks) /\
  (forall k m, In (k, m) out -> is_mean_of m (group_values by_country k sample_rows)).
Proof.
  exact (@groupby_mean_spec string string_Key string_KeyLaws
                            by_country sample_rows).
Defined.

(** On the sample: A and B get their means, C is kept with NaN, the row
    without a country belongs to no group; the groups come sorted. *)
Example groupby_mean_sample :
  map (fun e => (fst e, option_map Qred (snd e)))
      (groupby_mean by_country sample_rows)
  = [("A", Some 20); ("B", Some 50); ("C", None)].
Proof. reflexivity. Qed.

(** C5 as stated fails: a group whose values are all missing is emitted,
    with a NaN mean. *)
Lemma nan_group_emitted :
  groupby_mean by_country [row "C" 2020 "Male" None] = [("C", None)].
Proof. reflexivity. Qed.

(** C5, amended: a key is in the output exactly when some row carries it,
    whatever the row's value; the row of a group is NaN exactly when the
    group has no non-missing value. *)
Theorem groupby_mean_nan_rows {K : Type} `{KeyLaws K}
        (byKey : Row -> option K) (df : list Row) :
  (forall k, (exists m, In (k, m) (groupby_mean byKey df))
             <-> key_present byKey k df) /\
  (forall k m, In (k, m) (groupby_mean byKey df) ->
               (m = None <-> group_values byKey k df = [])).
Proof.
  split.
  - intros k. rewrite <- group_keys_In, <- groupby_mean_keys, in_map_iff.
    split.
    + intros (m & Hin). now exists (k, m).
    + intros ([k' m] & Hk & Hin). simpl in Hk; subst k'. now exists m.
  - intros k m Hin. now apply groupby_mean_row in Hin.
Qed.

Lemma groupby_mean_nan_rows_witness :
  (forall k, (exists m, In (k, m) (groupby_mean by_country sample_rows))
             <-> key_present by_country k sample_rows) /\
  (forall k m, In (k, m) (groupby_mean by_country sample_rows) ->
               (m = None <-> group_values by_country k sample_rows = [])).
Proof.
  exact (@groupby_mean_nan_rows string string_Key string_KeyLaws
                                by_country sample_rows).
Defined.

(** ** KPI scalars *)







(** On the sample: Lebanon's male prevalence is the mean of 40 and 42. *)
Example kpi_sample :
  option_map Qred (male_prev (dashboard both_sexes both_sexes "Lebanon"))
  = Some 41 /\
  slice_of both_sexes "Lebanon" "Male" = [40; 42].
Proof. split; reflexivity. Qed.

(** ** Map aggregate *)

(** C9: the map aggregate is the grouped mean of the whole mortality frame
    by (country, iso3); it is the same for any two selected countries. *)
Theorem map_df_ignores_country (df_tob df_mor : list Row) (c1 c2 : string) :
  out_map_df (dashboard df_tob df_mor c1) = out_map_df (dashboard df_tob df_mor c2) /\
  out_map_df (dashboard df_tob df_mor c1) = groupby_mean by_country_iso3 df_mor.
Proof. split; reflexivity. Qed.

(** ** Top-n selection *)

Lemma StronglySorted_app {A : Type} (R : A -> A -> Prop) (l1 l2 : list A) :
  StronglySorted R l1 -> StronglySorted R l2 ->
  (forall a b, In a l1 -> In b l2 -> R a b) ->
  StronglySorted R (l1 ++ l2).
Proof.
  induction l1 as [|x t IH]; intros H1 H2 Hc; simpl; [assumption|].
  inversion H1 as [|? ? Ht Hx]; subst. constructor.
  - apply IH; auto. intros a b Ha Hb. apply Hc; [now right|assumption].
  - apply Forall_app; split; [assumption|].
    apply Forall_forall. intros b Hb. apply Hc; [now left|assumption].
Qed.

Lemma StronglySorted_app_inv {A : Type} (R : A -> A -> Prop) (l1 l2 : list A) :
  StronglySorted R (l1 ++ l2) ->
  StronglySorted R l1 /\ forall a b, In a l1 -> In b l2 -> R a b.
Proof.
  induction l1 as [|x t IH]; simpl; intros Hs.
  - split; [constructor|]. intros a b [].
  - inversion Hs as [|? ? Ht Hx]; subst.
    destruct (IH Ht) as [Hs1 Hc]. apply Forall_app in Hx as [Hx1 Hx2].
    split; [now constructor|].
    intros a b [<-|Ha] Hb.
    + rewrite Forall_forall in Hx2. now apply Hx2.
    + now apply Hc.
Qed.

Section NLargestFacts.
Context {K : Type}.

Lemma insert_desc_perm (x : K * Q) (l : list (K * Q)) :
  Permutation (insert_desc x l) (x :: l).
Proof.
  induction l as [|h t IH]; simpl; [reflexivity|].
  destruct (Qle_bool (snd h) (snd x)); [reflexivity|].
  rewrite IH. apply perm_swap.
Qed.

Lemma sort_desc_perm (l : list (K * Q)) : Permutation (sort_desc l) l.
Proof.
  induction l as [|h t IH]; simpl; [reflexivity|].
  rewrite insert_desc_perm. now constructor.
Qed.

Lemma insert_desc_sorted (x : K * Q) (l : list (K * Q)) :
  StronglySorted desc l -> StronglySorted desc (insert_desc x l).
Proof.
  induction l as [|h t IH]; intros Hs; simpl.
  - repeat constructor.
  - inversion Hs as [|? ? Ht Hh]; subst.
    destruct (Qle_bool (snd h) (snd x)) eqn:E.
    + apply Qle_bool_iff in E. constructor; [assumption|].
      constructor; [exact E|].
      eapply Forall_impl; [|exact Hh].
      intros e He. unfold desc in *. lra.
    + constructor; [now apply IH|].
      eapply Permutation_Forall; [symmetry; apply insert_desc_perm|].
      constructor; [|assumption].
      unfold desc. destruct (Qlt_le_dec (snd x) (snd h)) as [Hlt|Hle].
      * lra.
      * apply Qle_bool_iff in Hle. congruence.
Qed.

Lemma sort_desc_sorted (l : list (K * Q)) : StronglySorted desc (sort_desc l).
Proof.
  induction l as [|h t IH]; simpl; [constructor|].
  now apply insert_desc_sorted.
Qed.

(** Stability: rows of equal value keep their order of appearance. *)
Lemma insert_desc_filter (q : Q) (x : K * Q) (l : list (K * Q)) :
  filter (fun r => Qeq_bool (snd r) q) (insert_desc x l)
  = filter (fun r => Qeq_bool (snd r) q) (x :: l).
Proof.
  induction l as [|h t IH]; [reflexivity|].
  cbn [insert_desc]. destruct (Qle_bool (snd h) (snd x)) eqn:E; [reflexivity|].
  cbn [filter] in *. rewrite IH.
  destruct (Qeq_bool (snd x) q) eqn:Ex; [|reflexivity].
  destruct (Qeq_bool (snd h) q) eqn:Eh; [|reflexivity].
  exfalso. apply Qeq_bool_iff in Ex, Eh.
  assert (Hle : snd h <= snd x) by (rewrite Ex, Eh; apply Qle_refl).
  apply Qle_bool_iff in Hle. congruence.
Qed.

Lemma sort_desc_stable (q : Q) (l : list (K * Q)) :
  filter (fun r => Qeq_bool (snd r) q) (sort_desc l)
  = filter (fun r => Qeq_bool (snd r) q) l.
Proof.
  induction l as [|h t IH]; [reflexivity|].
  cbn [sort_desc fold_right]. fold (sort_desc t).
  rewrite insert_desc_filter. cbn [filter]. now rewrite IH.
Qed.

Lemma numeric_nan_perm (rows : list (K * option Q)) :
  Permutation (map inj (numeric rows) ++ filter is_nan rows) rows.
Proof.
  induction rows as [|[k [v|]] t IH]; simpl; [reflexivity| |].
  - unfold inj at 1; simpl. now constructor.
  - unfold is_nan at 1; simpl. symmetry. apply Permutation_cons_app.
    now symmetry.
Qed.

Lemma ranked_perm (rows : list (K * option Q)) : Permutation (ranked rows) rows.
Proof.
  unfold ranked. fold (@inj K).
  rewrite (Permutation_map inj (sort_desc_perm (numeric rows))).
  apply numeric_nan_perm.
Qed.

Lemma ranked_sorted (rows : list (K * option Q)) :
  StronglySorted ranks_above (ranked rows).
Proof.
  unfold ranked. fold (@inj K). apply StronglySorted_app.
  - pose proof (sort_desc_sorted (numeric rows)) as Hs.
    induction Hs as [|x l Hl IH Hx]; simpl; constructor; [assumption|].
    apply Forall_forall. intros b Hb. apply in_map_iff in Hb as (b' & <- & Hb').
    rewrite Forall_forall in Hx. exact (Hx b' Hb').
  - induction rows as [|[k [v|]] t IH]; simpl; [constructor|assumption|].
    unfold is_nan at 1; simpl. constructor; [assumption|].
    apply Forall_forall. intros b Hb. apply filter_In in Hb as [_ Hb].
    unfold ranks_above, mean_ge, is_nan in *. destruct (snd b); [discriminate|exact I].
  - intros a b _ Hb. apply filter_In in Hb as [_ Hb].
    unfold ranks_above, mean_ge, is_nan in *. destruct (snd b); [discriminate|exact I].
Qed.

Lemma same_mean_inj (m : option Q) (h : K * Q) :
  same_mean m (inj h)
  = match m with Some q => Qeq_bool (snd h) q | None => false end.
Proof. destruct m; reflexivity. Qed.

Lemma same_mean_nan (m : option Q) (k : K) :
  same_mean m (k, None) = match m with Some _ => false | None => true end.
Proof. destruct m; reflexivity. Qed.

Lemma filter_same_mean_inj (q : Q) (l : list (K * Q)) :
  filter (same_mean (Some q)) (map inj l)
  = map inj (filter (fun r => Qeq_bool (snd r) q) l).
Proof.
  induction l as [|h t IH]; cbn [map filter]; [reflexivity|].
  rewrite same_mean_inj. destruct (Qeq_bool (snd h) q); cbn [map]; now rewrite IH.
Qed.

Lemma filter_nan_inj (l : list (K * Q)) :
  filter (same_mean None) (map inj l) = [].
Proof.
  induction l as [|h t IH]; cbn [map filter]; [reflexivity|].
  now rewrite same_mean_inj.
Qed.

Lemma ranked_stable (m : option Q) (rows : list (K * option Q)) :
  filter (same_mean m) (ranked rows) = filter (same_mean m) rows.
Proof.
  unfold ranked. fold (@inj K). rewrite filter_app. destruct m as [q|].
  - rewrite filter_same_mean_inj, sort_desc_stable, <- filter_same_mean_inj.
    induction rows as [|[k [v|]] t IH]; [reflexivity| |].
    + change (numeric ((k, Some v) :: t)) with ((k, v) :: numeric t).
      change (filter is_nan ((k, Some v) :: t)) with (filter is_nan t).
      cbn [map filter]. change (inj (k, v)) with (k, Some v).
      destruct (same_mean (Some q) (k, Some v)); cbn [app]; now rewrite IH.
    + change (numeric ((k, None) :: t)) with (numeric t).
      change (filter is_nan ((k, None) :: t)) with ((k, None) :: filter is_nan t).
      cbn [filter]. rewrite same_mean_nan. exact IH.
  - rewrite filter_nan_inj. cbn [app].
    induction rows as [|[k [v|]] t IH]; [reflexivity| |].
    + change (filter is_nan ((k, Some v) :: t)) with (filter is_nan t).
      cbn [filter]. change (same_mean None (k, Some v)) with false. exact IH.
    + change (filter is_nan ((k, None) :: t)) with ((k, None) :: filter is_nan t).
      cbn [filter]. rewrite same_mean_nan. now rewrite IH.
Qed.
End NLargestFacts.

(** C6: [nlargest 5] returns at most 5 rows (all of them when the frame
    has at most 5).  Together with the rows it leaves out it is a
    rearrangement of the frame in which every returned row ranks at least
    as high as every row left out, the returned rows are in descending
    order of the mean, and rows of equal mean stand in their order of
    appearance in the frame, so that a tie is decided for the row met
    first.  (A NaN mean ranks below every number.) *)
Theorem nlargest_5_spec {K : Type} (rows : list (K * option Q)) :
  exists rest,
    (length (nlargest 5 rows) <= 5)%nat /\
    length (nlargest 5 rows) = Nat.min 5 (length rows) /\
    Permutation (nlargest 5 rows ++ rest) rows /\
    (forall a b, In a (nlargest 5 rows) -> In b rest -> mean_ge (snd a) (snd b)) /\
    StronglySorted ranks_above (nlargest 5 rows) /\
    (forall m, filter (same_mean m) (nlargest 5 rows ++ rest)
               = filter (same_mean m) rows).
Proof.
  exists (skipn 5 (ranked rows)). unfold nlargest.
  rewrite firstn_skipn.
  pose proof (ranked_sorted rows) as Hs.
  rewrite <- (firstn_skipn 5 (ranked rows)) in Hs.
  apply StronglySorted_app_inv in Hs as [Hs Hc].
  split; [apply firstn_le_length|].
  split; [rewrite length_firstn; f_equal;
          apply Permutation_length, ranked_perm|].
  split; [apply ranked_perm|].
  split; [exact Hc|].
  split; [exact Hs|].
  intros m. apply ranked_stable.
Qed.

(** On the sample: E first, then the three rows tied at 30 in frame order,
    then G; B and the NaN row are left out. *)
Example nlargest_sample :
  nlargest 5 sample_aggregates
  = [("E", Some 50); ("A", Some 30); ("C", Some 30); ("F", Some 30);
     ("G", Some 20)].
Proof. reflexivity. Qed.

(** With room for two rows only, the tie at 30 goes to the first row. *)
Example nlargest_tie :
  nlargest 2 sample_aggregates = [("E", Some 50); ("A", Some 30)].
Proof. reflexivity. Qed.

Lemma nlargest_5_spec_witness :
  exists rest,
    (length (nlargest 5 sample_aggregates) <= 5)%nat /\
    length (nlargest 5 sample_aggregates) = Nat.min 5 (length sample_aggregates) /\
    Permutation (nlargest 5 sample_aggregates ++ rest) sample_aggregates /\
    (forall a b, In a (nlargest 5 sample_aggregates) -> In b rest ->
                 mean_ge (snd a) (snd b)) /\
    StronglySorted ranks_above (nlargest 5 sample_aggregates) /\
    (forall m, filter (same_mean m) (nlargest 5 sample_aggregates ++ rest)
               = filter (same_mean m) sample_aggregates).
Proof.
  exact (nlargest_5_spec sample_aggregates).
Defined.

(** ** Least squares *)

Lemma total_map_nonneg {A : Type} (f : A -> Q) (l : list A) :
  (forall a, In a l -> 0 <= f a) -> 0 <= total (map f l).
Proof.
  induction l as [|a t IH]; intros Hf; simpl; [lra|].
  pose proof (Hf a (or_introl eq_refl)).
  assert (0 <= total (map f t)) by (apply IH; intros; apply Hf; now right).
  lra.
Qed.

Lemma total_map_zero {A : Type} (f : A -> Q) (l : list A) :
  (forall a, In a l -> 0 <= f a) -> total (map f l) <= 0 ->
  forall a, In a l -> f a == 0.
Proof.
  induction l as [|x t IH]; intros Hf Hz a Ha; [contradiction|].
  simpl in Hz.
  pose proof (Hf x (or_introl eq_refl)) as Hx.
  assert (Ht : 0 <= total (map f t))
    by (apply total_map_nonneg; intros; apply Hf; now right).
  destruct Ha as [<-|Ha]; [lra|].
  apply IH; auto; [intros; apply Hf; now right | lra].
Qed.

Lemma total_cons (x : Q) (l : list Q) : total (x :: l) = x + total l.
Proof. reflexivity. Qed.

Lemma Qsquare_nonneg (a : Q) : 0 <= a * a.
Proof. nra. Qed.

Lemma Qsquare_zero (a : Q) : a * a == 0 -> a == 0.
Proof. intros Ha. destruct (Qmult_integral _ _ Ha); assumption. Qed.

(** The sums of the normal equations over a list of points. *)
Section NormalEquations.
Variable pts : list (Q * Q).

Let n := Qlen pts.
Let Tx := total (map fst pts).
Let Ty := total (map snd pts).
Let Txx := total (map (fun p => fst p * fst p) pts).
Let Txy := total (map (fun p => fst p * snd p) pts).

Lemma zip_mul_points :
  zip_mul (map fst pts) (map snd pts) = map (fun p => fst p * snd p) pts.
Proof.
  induction pts as [|p t IH]; simpl; [reflexivity|]. now rewrite IH.
Qed.

Lemma Sx_points : Sx (map fst pts) == Tx.
Proof. unfold Sx. apply Qsum_total. Qed.

Lemma Sxx_points : Sxx (map fst pts) == Txx.
Proof. unfold Sxx. rewrite Qsum_total, map_map. reflexivity. Qed.

Lemma Sxy_points : Sxy (map fst pts) (map snd pts) == Txy.
Proof. unfold Sxy. rewrite Qsum_total, zip_mul_points. reflexivity. Qed.

Lemma Qlen_points : Qlen (map fst pts) = n.
Proof. unfold n, Qlen. now rewrite length_map. Qed.

Lemma det_points : det (map fst pts) == n * Txx - Tx * Tx.
Proof. unfold det. now rewrite Qlen_points, Sxx_points, Sx_points. Qed.
End NormalEquations.

(** Moving from the line [(m, b)] to the line [(m', b')] changes the sum
    of squared residuals by a term linear in the two normal-equation
    residuals plus a sum of squares. *)
Lemma sse_shift (pts : list (Q * Q)) (m b m' b' : Q) :
  sse m' b' pts ==
  sse m b pts
  - 2 * ((m' - m) * (total (map (fun p => fst p * snd p) pts)
                     - m * total (map (fun p => fst p * fst p) pts)
                     - b * total (map fst pts))
         + (b' - b) * (total (map snd pts) - m * total (map fst pts)
                       - Qlen pts * b))
  + total (map (fun p => ((m' - m) * fst p + (b' - b))
                         * ((m' - m) * fst p + (b' - b))) pts).
Proof.
  induction pts as [|[x y] t IH].
  - unfold sse, Qlen; simpl. ring.
  - rewrite Qlen_cons. unfold sse in *. cbn [map fst snd].
    rewrite !total_cons, IH. ring.
Qed.

Lemma det_cons (x : Q) (l : list Q) :
  Qlen (x :: l) * total (map (fun a => a * a) (x :: l))
  - total (x :: l) * total (x :: l)
  == Qlen l * total (map (fun a => a * a) l) - total l * total l
     + total (map (fun a => (x - a) * (x - a)) l).
Proof.
  assert (Hsq : total (map (fun a => (x - a) * (x - a)) l)
                == Qlen l * (x * x) - 2 * x * total l
                   + total (map (fun a => a * a) l)).
  { induction l as [|a t IH].
    - unfold Qlen; simpl. ring.
    - rewrite Qlen_cons. cbn [map]. rewrite !total_cons, IH. ring. }
  rewrite Hsq, Qlen_cons. cbn [map]. rewrite !total_cons. ring.
Qed.

Lemma det_nonneg (l : list Q) :
  0 <= Qlen l * total (map (fun a => a * a) l) - total l * total l.
Proof.
  induction l as [|x t IH].
  - unfold Qlen; simpl. lra.
  - rewrite det_cons.
    assert (0 <= total (map (fun a => (x - a) * (x - a)) t))
      by (apply total_map_nonneg; intros; apply Qsquare_nonneg).
    lra.
Qed.

Lemma total_sq_pos (x b : Q) (l : list Q) :
  In b l -> ~ x == b -> 0 < total (map (fun a => (x - a) * (x - a)) l).
Proof.
  intros Hin Hne.
  assert (Hnn : 0 <= total (map (fun a => (x - a) * (x - a)) l))
    by (apply total_map_nonneg; intros; apply Qsquare_nonneg).
  destruct (Qlt_le_dec 0 (total (map (fun a => (x - a) * (x - a)) l)))
    as [Hlt|Hle]; [assumption|].
  exfalso. apply Hne.
  assert (Hz : (x - b) * (x - b) == 0).
  { apply (total_map_zero (fun a => (x - a) * (x - a)) l); auto.
    intros; apply Qsquare_nonneg. }
  apply Qsquare_zero in Hz. lra.
Qed.

(** Two different abscissas make the normal equations regular. *)
Lemma det_pos (l : list Q) :
  (exists a b, In a l /\ In b l /\ ~ a == b) ->
  0 < Qlen l * total (map (fun a => a * a) l) - total l * total l.
Proof.
  induction l as [|x t IH]; intros (a & b & Ha & Hb & Hne); [contradiction|].
  rewrite det_cons.
  pose proof (det_nonneg t) as Hnn.
  assert (Hsq : 0 <= total (map (fun a => (x - a) * (x - a)) t))
    by (apply total_map_nonneg; intros; apply Qsquare_nonneg).
  destruct Ha as [<-|Ha], Hb as [<-|Hb].
  - exfalso. apply Hne. reflexivity.
  - pose proof (total_sq_pos x b t Hb Hne). lra.
  - assert (Hne' : ~ x == a) by (intros E; apply Hne; now symmetry).
    pose proof (total_sq_pos x a t Ha Hne'). lra.
  - assert (0 < Qlen t * total (map (fun a => a * a) t) - total t * total t)
      by (apply IH; now exists a, b).
    lra.
Qed.

Lemma det_total (xs : list Q) :
  det xs == Qlen xs * total (map (fun a => a * a) xs) - total xs * total xs.
Proof. unfold det, Sxx, Sx. now rewrite !Qsum_total. Qed.

Lemma normal_equations_solved (n Tx Ty Txx Txy : Q) :
  ~ n == 0 -> ~ n * Txx - Tx * Tx == 0 ->
  let m := (n * Txy - Tx * Ty) / (n * Txx - Tx * Tx) in
  let b := (Ty - m * Tx) / n in
  Txy - m * Txx - b * Tx == 0 /\ Ty - m * Tx - n * b == 0.
Proof. intros Hn Hd m b. subst m b. split; field; auto. Qed.

Lemma det_pos_nonempty (pts : list (Q * Q)) :
  0 < det (map fst pts) -> 0 < Qlen pts.
Proof.
  destruct pts as [|p t]; intros Hd.
  - exfalso. rewrite det_total in Hd. unfold Qlen in Hd; simpl in Hd. lra.
  - apply Qlen_pos. discriminate.
Qed.

(** With a regular system, [ols_m] and [ols_b] solve the normal equations. *)
Lemma ols_normal (pts : list (Q * Q)) :
  0 < det (map fst pts) ->
  total (map (fun p => fst p * snd p) pts)
  - ols_m (map fst pts) (map snd pts) * total (map (fun p => fst p * fst p) pts)
  - ols_b (map fst pts) (map snd pts) * total (map fst pts) == 0 /\
  total (map snd pts) - ols_m (map fst pts) (map snd pts) * total (map fst pts)
  - Qlen pts * ols_b (map fst pts) (map snd pts) == 0.
Proof.
  intros Hd. pose proof (det_pos_nonempty pts Hd) as Hn.
  rewrite det_points in Hd.
  assert (Hm : ols_m (map fst pts) (map snd pts)
               == (Qlen pts * total (map (fun p => fst p * snd p) pts)
                   - total (map fst pts) * total (map snd pts))
                  / (Qlen pts * total (map (fun p => fst p * fst p) pts)
                     - total (map fst pts) * total (map fst pts))).
  { unfold ols_m.
    now rewrite Qlen_points, Sxy_points, Sx_points, Qsum_total, det_points. }
  assert (Hb : ols_b (map fst pts) (map snd pts)
               == (total (map snd pts)
                   - ols_m (map fst pts) (map snd pts) * total (map fst pts))
                  / Qlen pts).
  { unfold ols_b. now rewrite Qlen_points, Sx_points, Qsum_total. }
  rewrite Hb, Hm.
  apply normal_equations_solved; lra.
Qed.

(** The fitted line minimises the sum of squared residuals. *)
Lemma ols_minimal (pts : list (Q * Q)) (m' b' : Q) :
  0 < det (map fst pts) ->
  sse (ols_m (map fst pts) (map snd pts)) (ols_b (map fst pts) (map snd pts)) pts
  <= sse m' b' pts.
Proof.
  intros Hd. destruct (ols_normal pts Hd) as [H1 H2].
  rewrite (sse_shift pts (ols_m (map fst pts) (map snd pts))
                     (ols_b (map fst pts) (map snd pts)) m' b').
  rewrite H1, H2.
  match goal with
  | |- _ <= _ - _ + total (map ?f pts) =>
      assert (0 <= total (map f pts))
        by (apply total_map_nonneg; intros; apply Qsquare_nonneg)
  end.
  lra.
Qed.

(** It is the only minimiser when two abscissas differ. *)
Lemma ols_unique (pts : list (Q * Q)) (m' b' : Q) :
  0 < det (map fst pts) ->
  (exists p1 p2, In p1 pts /\ In p2 pts /\ ~ fst p1 == fst p2) ->
  sse m' b' pts
  <= sse (ols_m (map fst pts) (map snd pts)) (ols_b (map fst pts) (map snd pts)) pts ->
  m' == ols_m (map fst pts) (map snd pts) /\
  b' == ols_b (map fst pts) (map snd pts).
Proof.
  intros Hd (p1 & p2 & Hp1 & Hp2 & Hne) Hle.
  destruct (ols_normal pts Hd) as [H1 H2].
  set (m := ols_m (map fst pts) (map snd pts)) in *.
  set (b := ols_b (map fst pts) (map snd pts)) in *.
  rewrite (sse_shift pts m b m' b'), H1, H2 in Hle.
  set (f := fun p : Q * Q => ((m' - m) * fst p + (b' - b))
                             * ((m' - m) * fst p + (b' - b))) in *.
  assert (Hz : forall p, In p pts -> f p == 0).
  { apply total_map_zero; [intros; apply Qsquare_nonneg | lra]. }
  pose proof (Qsquare_zero _ (Hz p1 Hp1)) as E1.
  pose proof (Qsquare_zero _ (Hz p2 Hp2)) as E2.
  assert (Hdm : (m' - m) * (fst p1 - fst p2) == 0) by lra.
  destruct (Qmult_integral _ _ Hdm) as [Hm0|Hx0].
  - rewrite Hm0 in E1. split; lra.
  - exfalso. apply Hne. lra.
Qed.

(** ** Forecast *)

Lemma Qeq_bool_false (a b : Q) : ~ a == b -> Qeq_bool a b = false.
Proof.
  intros Hne. destruct (Qeq_bool a b) eqn:E; [|reflexivity].
  apply Qeq_bool_iff in E. contradiction.
Qed.

Lemma polyfit_nonempty (x : list Z) (y : list (option Q)) :
  x <> [] ->
  polyfit x y
  = if negb (length x =? length y)%nat then Err TypeError
    else if Qeq_bool (Sxx (map inject_Z x)) 0 then Err LinAlgError
    else match all_some y with
         | None => Ok (None, None)
         | Some ys =>
             if Qeq_bool (det (map inject_Z x)) 0 then
               Ok (Some (Qsum ys / Qlen ys / (2 * inject_Z (hd 0%Z x))),
                   Some (Qsum ys / Qlen ys / 2))
             else Ok (Some (ols_m (map inject_Z x) ys),
                      Some (ols_b (map inject_Z x) ys))
         end.
Proof. destruct x; [congruence|reflexivity]. Qed.

(** A series without NaN, seen as points. *)
Lemma points_columns (df_sex : list TsRow) :
  (forall r, In r df_sex -> ts_value r <> None) ->
  map inject_Z (map ts_year df_sex) = map fst (points df_sex) /\
  all_some (map ts_value df_sex) = Some (map snd (points df_sex)).
Proof.
  induction df_sex as [|r t IH]; intros Hv; [now split|].
  destruct IH as [IHx IHy]; [intros; apply Hv; now right|].
  pose proof (Hv r (or_introl eq_refl)) as Hr.
  unfold points in *. cbn [map flat_map all_some].
  destruct (ts_value r) as [v|]; [|congruence].
  cbn [app map fst snd]. rewrite IHx, IHy. now split.
Qed.

Lemma two_years_points (df_sex : list TsRow) :
  (forall r, In r df_sex -> ts_value r <> None) ->
  two_distinct_years df_sex ->
  exists p1 p2, In p1 (points df_sex) /\ In p2 (points df_sex)
                /\ ~ fst p1 == fst p2.
Proof.
  intros Hv (r1 & r2 & Hr1 & Hr2 & Hne).
  assert (Hpt : forall r, In r df_sex ->
                exists v, In (inject_Z (ts_year r), v) (points df_sex)).
  { intros r Hr. pose proof (Hv r Hr) as Hrv.
    destruct (ts_value r) as [v|] eqn:E; [|congruence].
    exists v. unfold points. apply in_flat_map. exists r; split; [assumption|].
    rewrite E. now left. }
  destruct (Hpt r1 Hr1) as [v1 H1], (Hpt r2 Hr2) as [v2 H2].
  exists (inject_Z (ts_year r1), v1), (inject_Z (ts_year r2), v2).
  split; [assumption|]. split; [assumption|].
  simpl. intros E. apply Hne. rewrite <- inject_Z_injective. exact E.
Qed.

Lemma points_det_pos (df_sex : list TsRow) :
  (forall r, In r df_sex -> ts_value r <> None) ->
  two_distinct_years df_sex ->
  0 < det (map fst (points df_sex)).
Proof.
  intros Hv Hd. rewrite det_total. apply det_pos.
  destruct (two_years_points df_sex Hv Hd) as (p1 & p2 & H1 & H2 & Hne).
  exists (fst p1), (fst p2). repeat split; auto using in_map.
Qed.

Lemma forecast_ols (df_sex : list TsRow) (years : list Z) (sex : string) :
  (forall r, In r df_sex -> ts_value r <> None) ->
  two_distinct_years df_sex ->
  forecast df_sex years sex
  = Ok (map (fun yr =>
               mkTs yr sex
                    (Some (ols_m (map fst (points df_sex)) (map snd (points df_sex))
                           * inject_Z yr
                           + ols_b (map fst (points df_sex)) (map snd (points df_sex))))
                    "Forecast")
            years).
Proof.
  intros Hv Hd.
  pose proof (points_det_pos df_sex Hv Hd) as Hdet.
  destruct (points_columns df_sex Hv) as [Hx Hy].
  assert (Hne : map ts_year df_sex <> []).
  { destruct Hd as (r1 & _ & Hr1 & _). destruct df_sex; [contradiction|discriminate]. }
  unfold forecast. rewrite (polyfit_nonempty _ _ Hne).
  rewrite !length_map, Nat.eqb_refl. cbn [negb].
  rewrite Hx, Hy.
  assert (Hsxx : ~ Sxx (map fst (points df_sex)) == 0).
  { intros E. unfold det in Hdet. rewrite E in Hdet.
    pose proof (Qsquare_nonneg (Sx (map fst (points df_sex)))). lra. }
  rewrite (Qeq_bool_false _ _ Hsxx).
  assert (Hdne : ~ det (map fst (points df_sex)) == 0) by lra.
  rewrite (Qeq_bool_false _ _ Hdne).
  reflexivity.
Qed.

(** C2 as stated fails: a yearly mean that is NaN is passed to the fit
    as it is; the series below has three distinct years, and its forecast
    values are NaN, not values of a fitted line. *)
Lemma nan_mean_forecasts_nan :
  two_distinct_years nan_series /\
  forecast nan_series [2025; 2030]%Z "Male"
  = Ok [ mkTs 2025 "Male" None "Forecast"; mkTs 2030 "Male" None "Forecast" ].
Proof.
  split; [|reflexivity].
  exists (mkTs 2018 "Male" (Some 20) "Actual"),
         (mkTs 2020 "Male" (Some 24) "Actual").
  simpl. repeat split; auto. discriminate.
Qed.

(** C2, amended: for a series of numbers (no NaN yearly mean) with two
    distinct years, all calendar years, and any list of future years,
    [forecast] returns one row per requested year, in the requested order,
    whose value is [m*year + b], unclamped, for the line [(m, b)] that
    minimises the sum of squared residuals over all points of the series,
    the only such line.  The values are those of exact arithmetic, which
    the float64 computation follows up to rounding: for (2018, 20),
    (2019, 22), (2020, 24) and the years 2025 and 2030 they are 34 and
    44. *)
Theorem forecast_is_ols_line :
  (forall (df_sex : list TsRow) (years : list Z) (sex : string),
      (forall r, In r df_sex -> ts_value r <> None) ->
      calendar_years df_sex ->
      two_distinct_years df_sex ->
      exists m b,
        forecast df_sex years sex
        = Ok (map (fun yr => mkTs yr sex (Some (m * inject_Z yr + b)) "Forecast")
                  years) /\
        (forall m' b', sse m b (points df_sex) <= sse m' b' (points df_sex)) /\
        (forall m' b', sse m' b' (points df_sex) <= sse m b (points df_sex) ->
                       m' == m /\ b' == b)) /\
  (exists v1 v2,
      forecast lebanon_male [2025; 2030]%Z "Male"
      = Ok [ mkTs 2025 "Male" (Some v1) "Forecast";
             mkTs 2030 "Male" (Some v2) "Forecast" ] /\
      v1 == 34 /\ v2 == 44).
Proof.
  split.
  - intros df_sex years sex Hv _ Hd.
    exists (ols_m (map fst (points df_sex)) (map snd (points df_sex))),
           (ols_b (map fst (points df_sex)) (map snd (points df_sex))).
    pose proof (points_det_pos df_sex Hv Hd) as Hdet.
    split; [now apply forecast_ols|].
    split.
    + intros m' b'. now apply ols_minimal.
    + intros m' b'. apply ols_unique; [assumption|].
      now apply two_years_points.
  - eexists. eexists. split; [vm_compute; reflexivity|].
    split; vm_compute; reflexivity.
Qed.

Lemma forecast_is_ols_line_witness :
  exists m b,
    forecast lebanon_male years_future "Male"
    = Ok (map (fun yr => mkTs yr "Male" (Some (m * inject_Z yr + b)) "Forecast")
              years_future) /\
    (forall m' b', sse m b (points lebanon_male) <= sse m' b' (points lebanon_male)) /\
    (forall m' b', sse m' b' (points lebanon_male) <= sse m b (points lebanon_male) ->
                   m' == m /\ b' == b).
Proof.
  apply (proj1 forecast_is_ols_line lebanon_male years_future "Male").
  - intros r Hr. simpl in Hr.
    destruct Hr as [<-|[<-|[<-|[]]]]; simpl; discriminate.
  - intros r Hr. simpl in Hr.
    destruct Hr as [<-|[<-|[<-|[]]]]; simpl; lia.
  - exists (mkTs 2018 "Male" (Some 20) "Actual"),
           (mkTs 2019 "Male" (Some 22) "Actual").
    simpl. repeat split; auto. discriminate.
Defined.

(** The line is not clamped: a falling series is extrapolated below zero. *)
Example forecast_negative :
  exists v,
    forecast [ mkTs 2018 "Male" (Some 2) "Actual";
               mkTs 2020 "Male" (Some 1) "Actual" ] [2030%Z] "Male"
    = Ok [ mkTs 2030 "Male" (Some v) "Forecast" ] /\ v == -4.
Proof. eexists. split; [vm_compute; reflexivity|]. vm_compute; reflexivity. Qed.

(** C4 as stated fails: on the single point (2020, 5) the fit does not
    raise; forecast values are returned. *)
Lemma single_point_no_error :
  ~ exists e, forecast single_point [2025; 2030]%Z "Male" = Err e.
Proof. intros [e He]. vm_compute in He. discriminate He. Qed.

Lemma total_map_const {A : Type} (f : A -> Q) (l : list A) (c : Q) :
  (forall a, In a l -> f a = c) -> total (map f l) == Qlen l * c.
Proof.
  induction l as [|x t IH]; intros Hc.
  - unfold Qlen; simpl. ring.
  - cbn [map]. rewrite Qlen_cons, total_cons, IH by (intros; apply Hc; now right).
    rewrite (Hc x (or_introl eq_refl)). ring.
Qed.

(** All points in one year other than 0: the rank-deficient fit. *)
Lemma forecast_one_year (df_sex : list TsRow) (years : list Z) (sex : string)
      (x0 : Z) :
  df_sex <> [] -> x0 <> 0%Z ->
  (forall r, In r df_sex -> ts_year r = x0 /\ ts_value r <> None) ->
  exists m b,
    forecast df_sex years sex
    = Ok (map (fun yr => mkTs yr sex (Some (m * inject_Z yr + b)) "Forecast")
              years) /\
    m == total (map snd (points df_sex)) / Qlen (points df_sex)
         / (2 * inject_Z x0) /\
    b == total (map snd (points df_sex)) / Qlen (points df_sex) / 2.
Proof.
  intros Hne Hx0 Hall.
  assert (Hv : forall r, In r df_sex -> ts_value r <> None)
    by (intros r Hr; now apply Hall).
  destruct (points_columns df_sex Hv) as [Hx Hy].
  assert (Hxne : map ts_year df_sex <> []) by (destruct df_sex; [congruence|discriminate]).
  assert (Hhd : hd 0%Z (map ts_year df_sex) = x0).
  { destruct df_sex as [|r t]; [congruence|]. simpl. apply Hall. now left. }
  assert (Hconst : forall a, In a (map fst (points df_sex)) -> a = inject_Z x0).
  { rewrite <- Hx. intros a Ha. apply in_map_iff in Ha as (y & <- & Hy').
    apply in_map_iff in Hy' as (r & <- & Hr). f_equal. now apply Hall. }
  assert (Hlen : 0 < Qlen (map fst (points df_sex))).
  { apply Qlen_pos. rewrite <- Hx. destruct df_sex; [congruence|discriminate]. }
  assert (Hq0 : ~ inject_Z x0 == 0).
  { change 0 with (inject_Z 0). rewrite inject_Z_injective. exact Hx0. }
  assert (Htx : total (map fst (points df_sex))
                == Qlen (map fst (points df_sex)) * inject_Z x0).
  { rewrite <- (map_id (map fst (points df_sex))) at 1.
    now apply total_map_const. }
  assert (Htxx : total (map (fun a => a * a) (map fst (points df_sex)))
                 == Qlen (map fst (points df_sex)) * (inject_Z x0 * inject_Z x0)).
  { apply total_map_const. intros a Ha. now rewrite (Hconst a Ha). }
  assert (Hsxx : ~ Sxx (map fst (points df_sex)) == 0).
  { unfold Sxx. rewrite Qsum_total, Htxx. intros E.
    destruct (Qmult_integral _ _ E) as [E1|E1]; [lra|].
    destruct (Qmult_integral _ _ E1); contradiction. }
  assert (Hdet : det (map fst (points df_sex)) == 0).
  { rewrite det_total, Htxx, Htx. ring. }
  unfold forecast. rewrite (polyfit_nonempty _ _ Hxne).
  rewrite !length_map, Nat.eqb_refl. cbn [negb].
  rewrite Hx, Hy, (Qeq_bool_false _ _ Hsxx).
  apply Qeq_bool_iff in Hdet. rewrite Hdet, Hhd.
  cbn [bind fst snd nan_mul nan_add].
  eexists. eexists. split; [reflexivity|].
  unfold Qlen at 1 3. rewrite !length_map. fold (Qlen (points df_sex)).
  rewrite Qsum_total. split; reflexivity.
Qed.


(** ** The loop over the sexes *)

(** C7 as stated fails: the female series alone can be forecast, but with
    no male row the first iteration raises and the loop yields nothing. *)
Lemma male_error_aborts_female :
  (exists pts,
      forecast (filter (ts_sex_is "Female") female_only) years_future "Female"
      = Ok pts /\ length pts = 2%nat) /\
  forecasts female_only years_future = Err TypeError.
Proof.
  split; [|reflexivity].
  eexists. split; [vm_compute; reflexivity|reflexivity].
Qed.

(** C7, amended: the two fits run one after the other, Male first, with
    nothing catching an exception.  The forecast rows are produced exactly
    when both fits succeed, the male rows followed by the female rows; an
    error of either fit is the result of the whole loop, and no row of the
    other sex is produced. *)
Theorem forecasts_all_or_nothing (ts : list TsRow) (years : list Z) :
  forecasts ts years
  = match forecast (filter (ts_sex_is "Male") ts) years "Male" with
    | Err e => Err e
    | Ok male =>
        match forecast (filter (ts_sex_is "Female") ts) years "Female" with
        | Err e => Err e
        | Ok female => Ok (male ++ female)
        end
    end.
Proof.
  unfold forecasts. cbn [for_each].
  destruct (forecast (filter (ts_sex_is "Male") ts) years "Male") as [male|e];
    cbn [bind app]; [|reflexivity].
  destruct (forecast (filter (ts_sex_is "Female") ts) years "Female") as [female|e];
    reflexivity.
Qed.

(** The same holds between the two charts: the mortality frame is built
    only after the prevalence frame was. *)
Lemma prevalence_error_aborts_mortality (df_tob df_mor : list Row) (c : string) (e : error) :
  df_plot (dashboard df_tob df_mor c) = Err e ->
  df_mplot (dashboard df_tob df_mor c) = Err e.
Proof.
  unfold dashboard; cbn [df_plot df_mplot]. intros ->. reflexivity.
Qed.

(** The end-to-end example as the script runs it: Lebanon has male rows
    only, so the female fit raises and no forecast frame is built. *)
Example lebanon_male_only_fails :
  df_plot (dashboard [ row "Lebanon" 2018 "Male" (Some 20);
                       row "Lebanon" 2019 "Male" (Some 22);
                       row "Lebanon" 2020 "Male" (Some 24) ] [] "Lebanon")
  = Err TypeError.
Proof. vm_compute. reflexivity. Qed.

(** * Further properties *)

(** ** Loaders: failure, empty inputs, the cast *)

Lemma mapM_err_inv {A B : Type} (f : A -> result B) (l : list A) (e : error) :
  mapM f l = Err e -> exists a, In a l /\ f a = Err e.
Proof.
  induction l as [|a t IH]; simpl; [discriminate|].
  destruct (f a) as [b|e'] eqn:Hfa; simpl.
  - destruct (mapM f t) as [bs|e'] eqn:Ht; simpl; [discriminate|].
    intros Heq; injection Heq as <-.
    destruct (IH eq_refl) as (a' & Ha' & Hf). exists a'; split; [now right|assumption].
  - intros Heq; injection Heq as <-. exists a; split; [now left|assumption].
Qed.

Lemma mapM_err_intro {A B : Type} (f : A -> result B) (l : list A) (a : A) (e : error) :
  In a l -> f a = Err e -> exists e', mapM f l = Err e'.
Proof.
  induction l as [|x t IH]; intros Hin Hfa; [contradiction|]. simpl.
  destruct Hin as [->|Hin].
  - rewrite Hfa. simpl. now exists e.
  - destruct (f x) as [b|e'']; simpl; [|now exists e''].
    destruct (IH Hin Hfa) as [e' ->]. simpl. now exists e'.
Qed.

Lemma normalize_err (raw : RawRow) (e : error) :
  normalize raw = Err e <-> date raw = None /\ e = IntCastingNaNError.
Proof.
  unfold normalize. destruct (date raw) as [q|]; simpl; split.
  - discriminate.
  - intros [H _]; discriminate.
  - intros H; injection H as <-. now split.
  - intros [_ ->]. reflexivity.
Qed.

(** A load fails exactly when a row that passes the filter has no date;
    the failure is the cast error and no other.  Rows the filter drops
    never make it fail. *)
Theorem load_tobacco_fails_iff (path : list RawRow) (indicators : list string) :
  ((exists e, load_tobacco path indicators = Err e) <->
   exists raw, In raw path /\ keep indicators raw = true /\ date raw = None) /\
  (forall e, load_tobacco path indicators = Err e -> e = IntCastingNaNError).
Proof.
  unfold load_tobacco. split; [split|].
  - intros [e He]. apply mapM_err_inv in He as (raw & Hin & Hn).
    apply filter_In in Hin as [Hin Hk]. apply normalize_err in Hn as [Hd _].
    now exists raw.
  - intros (raw & Hin & Hk & Hd).
    apply (mapM_err_intro normalize _ raw IntCastingNaNError).
    + apply filter_In. now split.
    + apply normalize_err. now split.
  - intros e He. apply mapM_err_inv in He as (raw & _ & Hn).
    now apply normalize_err in Hn.
Qed.

Lemma load_tobacco_fails_iff_witness :
  exists e,
    load_tobacco [mkRawRow (Some "Lebanon") None (Some "Male")
                           (Some tobacco_indicator) (Some 20) None None]
                 [tobacco_indicator] = Err e.
Proof.
  apply (proj2 (proj1 (load_tobacco_fails_iff _ _))).
  eexists. split; [now left|]. split; reflexivity.
Defined.

(** With no indicator to look for, or no row to look at, a load returns
    the empty frame; it does not fail. *)
Theorem load_tobacco_empty (path : list RawRow) (indicators : list string) :
  load_tobacco path [] = Ok [] /\ load_tobacco [] indicators = Ok [].
Proof.
  split; [|reflexivity].
  unfold load_tobacco.
  replace (filter (keep []) path) with (@nil RawRow); [reflexivity|].
  induction path as [|r t IH]; simpl; [reflexivity|].
  unfold keep at 1, isin at 1. destruct (raw_indicator r); simpl; exact IH.
Qed.





(** A date beyond the int64 range wraps: 10^19 is loaded as
    10^19 - 2^64. *)
Example load_tobacco_wraps :
  load_tobacco [mkRawRow (Some "Lebanon") (Some (inject_Z (10 ^ 19)))
                         (Some "Male") (Some tobacco_indicator) (Some 20)
                         None None]
               [tobacco_indicator]
  = Ok [mkRow (Some "Lebanon") (-8446744073709551616) (Some "Male")
              (Some tobacco_indicator) (Some 20) None None].
Proof. reflexivity. Qed.
(** ** The order of the groups *)

Lemma ascii_compare_refl (a : ascii) : Ascii.compare a a = Eq.
Proof. unfold Ascii.compare. apply N.compare_refl. Qed.

Lemma string_compare_lt_trans (a b c : string) :
  String.compare a b = Lt -> String.compare b c = Lt -> String.compare a c = Lt.
Proof.
  revert b c. induction a as [|x a IH]; intros [|y b] [|z c]; simpl;
    try discriminate; try reflexivity.
  destruct (Ascii.compare x y) eqn:Exy; try discriminate;
    destruct (Ascii.compare y z) eqn:Eyz; try discriminate; intros H1 H2.
  - apply Ascii.compare_eq_iff in Exy, Eyz. subst.
    rewrite ascii_compare_refl. now apply (IH b c).
  - apply Ascii.compare_eq_iff in Exy. subst. now rewrite Eyz.
  - apply Ascii.compare_eq_iff in Eyz. subst. now rewrite Exy.
  - unfold Ascii.compare in *. rewrite N.compare_lt_iff in *.
    assert (Hlt : (N_of_ascii x < N_of_ascii z)%N) by lia.
    apply N.compare_lt_iff in Hlt. now rewrite Hlt.
Qed.

Lemma string_leb_cases (a b : string) :
  String.leb a b = true <-> String.compare a b = Lt \/ a = b.
Proof.
  unfold String.leb. split.
  - destruct (String.compare a b) eqn:E; try discriminate; intros _.
    + right. now apply String.compare_eq_iff.
    + now left.
  - intros [->| ->]; [reflexivity|].
    destruct (String.compare b b) eqn:E; try reflexivity.
    pose proof (String.compare_antisym b b) as Ha. rewrite E in Ha. discriminate.
Qed.

#[export] Instance string_KeyOrder : KeyOrder string.
Proof.
  constructor; simpl.
  - apply String.leb_total.
  - intros a b c Hab Hbc. apply string_leb_cases in Hab, Hbc.
    apply string_leb_cases.
    destruct Hab as [Hab| ->], Hbc as [Hbc| ->]; auto.
    left. now apply (string_compare_lt_trans a b c).
  - apply String.leb_antisym.
Qed.

#[export] Instance Z_KeyOrder : KeyOrder Z.
Proof.
  constructor; simpl; intros; rewrite ?Z.leb_le in *; lia.
Qed.

#[export] Instance pair_KeyOrder {A B : Type}
  `{KeyLaws A} `{!KeyOrder A} `{Key B} `{!KeyOrder B} : KeyOrder (A * B).
Proof.
  constructor.
  - intros [a b] [c d]. simpl.
    destruct (key_eqb a c) eqn:E.
    + apply key_eqb_eq in E. subst c.
      rewrite (proj2 (key_eqb_eq a a) eq_refl). apply key_leb_total.
    + destruct (key_eqb c a) eqn:E'.
      * apply key_eqb_eq in E'. subst c.
        rewrite (proj2 (key_eqb_eq a a) eq_refl) in E. discriminate.
      * apply key_leb_total.
  - intros [a1 b1] [a2 b2] [a3 b3]. simpl.
    destruct (key_eqb a1 a2) eqn:E12; destruct (key_eqb a2 a3) eqn:E23;
      try (apply key_eqb_eq in E12; subst a2);
      try (apply key_eqb_eq in E23; subst a3).
    + rewrite (proj2 (key_eqb_eq a1 a1) eq_refl). apply key_leb_trans.
    + rewrite E23. auto.
    + rewrite E12. auto.
    + intros L12 L23. destruct (key_eqb a1 a3) eqn:E13.
      * apply key_eqb_eq in E13. subst a3.
        pose proof (key_leb_antisym _ _ L12 L23) as ->.
        rewrite (proj2 (key_eqb_eq a2 a2) eq_refl) in E12. discriminate.
      * now apply (key_leb_trans a1 a2 a3).
  - intros [a b] [c d]. simpl.
    destruct (key_eqb a c) eqn:E.
    + apply key_eqb_eq in E. subst c.
      rewrite (proj2 (key_eqb_eq a a) eq_refl).
      intros L1 L2. now rewrite (key_leb_antisym _ _ L1 L2).
    + destruct (key_eqb c a) eqn:E'.
      * apply key_eqb_eq in E'. subst c.
        rewrite (proj2 (key_eqb_eq a a) eq_refl) in E. discriminate.
      * intros L1 L2. pose proof (key_leb_antisym _ _ L1 L2) as ->.
        rewrite (proj2 (key_eqb_eq c c) eq_refl) in E. discriminate.
Qed.

Section KeyOrderFacts.
Context {K : Type} `{KeyLaws K} `{!KeyOrder K}.

Lemma insert_key_sorted (k : K) (l : list K) :
  StronglySorted (fun a b => key_leb a b = true) l ->
  StronglySorted (fun a b => key_leb a b = true) (insert_key k l).
Proof.
  induction l as [|h t IH]; intros Hs; simpl.
  - repeat constructor.
  - inversion Hs as [|? ? Ht Hh]; subst.
    destruct (key_leb k h) eqn:E.
    + constructor; [assumption|]. constructor; [assumption|].
      eapply Forall_impl; [|exact Hh]. intros x Hx.
      now apply (key_leb_trans k h x).
    + constructor; [now apply IH|].
      eapply Permutation_Forall; [symmetry; apply insert_key_perm|].
      constructor; [|assumption].
      destruct (key_leb_total k h) as [Hkh|Hhk]; [congruence|assumption].
Qed.

Lemma sort_keys_sorted (l : list K) :
  StronglySorted (fun a b => key_leb a b = true) (sort_keys l).
Proof.
  induction l as [|h t IH]; simpl; [constructor|]. now apply insert_key_sorted.
Qed.

Lemma sorted_NoDup_strict (l : list K) :
  StronglySorted (fun a b => key_leb a b = true) l -> NoDup l ->
  StronglySorted key_lt l.
Proof.
  induction 1 as [|h t Ht IH Hh]; intros Hnd; [constructor|].
  inversion Hnd as [|? ? Hnotin Hnd']; subst.
  constructor; [now apply IH|].
  rewrite Forall_forall in *. intros x Hx. split; [now apply Hh|].
  intros ->. contradiction.
Qed.

Lemma group_keys_strict (byKey : Row -> option K) (df : list Row) :
  StronglySorted key_lt (group_keys byKey df).
Proof.
  apply sorted_NoDup_strict; [apply sort_keys_sorted|apply group_keys_NoDup].
Qed.

Lemma groupby_mean_keys_strict (byKey : Row -> option K) (df : list Row) :
  StronglySorted key_lt (map fst (groupby_mean byKey df)).
Proof. rewrite groupby_mean_keys. apply group_keys_strict. Qed.

(** The groups of a grouped mean come in strictly ascending order of
    their key: by country name, by income group, or by the key columns
    compared one after the other. *)
Theorem groupby_mean_sorted (byKey : Row -> option K) (df : list Row) :
  StronglySorted key_lt (map fst (groupby_mean byKey df)).
Proof. apply groupby_mean_keys_strict. Qed.
End KeyOrderFacts.

Lemma groupby_mean_sorted_witness :
  StronglySorted key_lt (map fst (groupby_mean by_country_iso3 sample_rows)).
Proof. exact (groupby_mean_sorted by_country_iso3 sample_rows). Defined.

(** ** Top-n selection: edges, NaN rows, ties *)

Lemma StronglySorted_filter {A : Type} (R : A -> A -> Prop) (p : A -> bool)
      (l : list A) :
  StronglySorted R l -> StronglySorted R (filter p l).
Proof.
  induction 1 as [|x t Ht IH Hx]; simpl; [constructor|].
  destruct (p x); [|assumption].
  constructor; [assumption|].
  rewrite Forall_forall in *. intros y Hy. apply filter_In in Hy as [Hy _]. auto.
Qed.

Lemma StronglySorted_map_fst {A B : Type} (R : A -> A -> Prop) (l : list (A * B)) :
  StronglySorted R (map fst l) ->
  StronglySorted (fun x y => R (fst x) (fst y)) l.
Proof.
  induction l as [|x t IH]; simpl; intros Hs; [constructor|].
  inversion Hs as [|? ? Ht Hx]; subst. constructor; [now apply IH|].
  rewrite Forall_forall in *. intros y Hy. apply Hx. now apply in_map.
Qed.

Lemma In_firstn_In {A : Type} (n : nat) (l : list A) (x : A) :
  In x (firstn n l) -> In x l.
Proof.
  intros Hin. rewrite <- (firstn_skipn n l). apply in_or_app. now left.
Qed.

Section NLargestMore.
Context {K : Type}.

Lemma numeric_inj (l : list (K * Q)) : numeric (map inj l) = l.
Proof.
  induction l as [|[k v] t IH]; [reflexivity|].
  cbn [map]. change (numeric (inj (k, v) :: map inj t))
    with ((k, v) :: numeric (map inj t)). now rewrite IH.
Qed.

Lemma numeric_app (l1 l2 : list (K * option Q)) :
  numeric (l1 ++ l2) = numeric l1 ++ numeric l2.
Proof. unfold numeric. apply flat_map_app. Qed.

Lemma numeric_all_nan (l : list (K * option Q)) :
  Forall (fun r => is_nan r = true) l -> numeric l = [].
Proof.
  induction 1 as [|[k [v|]] t Hx _ IH]; [reflexivity|discriminate|exact IH].
Qed.

Lemma filter_nan_inj_nil (l : list (K * Q)) : filter is_nan (map inj l) = [].
Proof. induction l as [|h t IH]; [reflexivity|exact IH]. Qed.

Lemma filter_all_nan (l : list (K * option Q)) :
  Forall (fun r => is_nan r = true) l -> filter is_nan l = l.
Proof.
  induction 1 as [|x t Hx _ IH]; [reflexivity|]. simpl. rewrite Hx. now f_equal.
Qed.

Lemma sort_desc_sorted_id (l : list (K * Q)) :
  StronglySorted desc l -> sort_desc l = l.
Proof.
  induction 1 as [|x t Ht IH Hx]; [reflexivity|].
  cbn [sort_desc fold_right]. fold (sort_desc t). rewrite IH.
  destruct t as [|h t']; [reflexivity|]. cbn [insert_desc].
  inversion Hx as [|? ? Hh _]; subst. unfold desc in Hh.
  apply Qle_bool_iff in Hh. now rewrite Hh.
Qed.

(** A frame already ranked (numbers in descending order, then NaN rows)
    is left as it is. *)
Lemma ranked_fixed (s : list (K * Q)) (nans : list (K * option Q)) :
  StronglySorted desc s -> Forall (fun r => is_nan r = true) nans ->
  ranked (map inj s ++ nans) = map inj s ++ nans.
Proof.
  intros Hs Hn. unfold ranked. fold (@inj K).
  rewrite numeric_app, numeric_inj, (numeric_all_nan _ Hn), app_nil_r.
  rewrite (sort_desc_sorted_id _ Hs), filter_app, filter_nan_inj_nil.
  now rewrite (filter_all_nan _ Hn).
Qed.

Lemma ranked_split (rows : list (K * option Q)) (n : nat) :
  firstn n (ranked rows)
  = map inj (firstn n (sort_desc (numeric rows)))
    ++ firstn (n - length (sort_desc (numeric rows))) (filter is_nan rows).
Proof.
  unfold ranked. fold (@inj K).
  now rewrite firstn_app, firstn_map, length_map.
Qed.

(** Selecting twice selects nothing else: [nlargest n] of its own result
    is that result. *)
Theorem nlargest_idempotent (n : nat) (rows : list (K * option Q)) :
  nlargest n (nlargest n rows) = nlargest n rows.
Proof.
  unfold nlargest. rewrite (ranked_split rows n).
  rewrite ranked_fixed.
  - apply firstn_all2. rewrite <- ranked_split.
    rewrite length_firstn. apply Nat.le_min_l.
  - pose proof (sort_desc_sorted (numeric rows)) as Hs.
    rewrite <- (firstn_skipn n (sort_desc (numeric rows))) in Hs.
    now apply StronglySorted_app_inv in Hs as [Hs _].
  - apply Forall_forall. intros r Hr.
    apply In_firstn_In, filter_In in Hr. now destruct Hr.
Qed.

(** Asked for no row it returns none; asked for at least as many rows as
    the frame has it returns them all, ranked. *)
Theorem nlargest_edges (n : nat) (rows : list (K * option Q)) :
  nlargest 0 rows = [] /\
  ((length rows <= n)%nat ->
   nlargest n rows = ranked rows /\ Permutation (nlargest n rows) rows).
Proof.
  split; [reflexivity|]. intros Hn.
  assert (Heq : nlargest n rows = ranked rows).
  { unfold nlargest. apply firstn_all2.
    rewrite (Permutation_length (ranked_perm rows)). exact Hn. }
  split; [exact Heq|]. rewrite Heq. apply ranked_perm.
Qed.

Lemma numeric_In (rows : list (K * option Q)) (k : K) (v : Q) :
  In (k, v) (numeric rows) <-> In (k, Some v) rows.
Proof.
  unfold numeric. rewrite in_flat_map. split.
  - intros ([k' [v'|]] & Hin & Hx); simpl in Hx; [|contradiction].
    destruct Hx as [Hx|[]]. injection Hx as -> ->. assumption.
  - intros Hin. exists (k, Some v). split; [assumption|now left].
Qed.

(** A row with a NaN mean is selected only when there is room left after
    every row with a number: if one is returned, all rows with a number
    are returned too. *)
Theorem nlargest_nan_last (n : nat) (rows : list (K * option Q)) (k : K) :
  In (k, None) (nlargest n rows) ->
  forall k' v, In (k', Some v) rows -> In (k', Some v) (nlargest n rows).
Proof.
  unfold nlargest. rewrite ranked_split. intros Hnan k' v Hin.
  apply in_app_or in Hnan as [Hnan|Hnan].
  - apply in_map_iff in Hnan as (x & Hx & _). discriminate Hx.
  - assert (Hlen : (length (sort_desc (numeric rows)) <= n)%nat).
    { destruct (n - length (sort_desc (numeric rows)))%nat eqn:E;
        [contradiction|lia]. }
    rewrite (firstn_all2 _ Hlen). apply in_or_app. left.
    apply in_map_iff. exists (k', v). split; [reflexivity|].
    apply (Permutation_in _ (Permutation_sym (sort_desc_perm _))).
    now apply numeric_In.
Qed.
End NLargestMore.

Lemma nlargest_edges_witness :
  nlargest 9 sample_aggregates = ranked sample_aggregates /\
  Permutation (nlargest 9 sample_aggregates) sample_aggregates.
Proof.
  apply (proj2 (nlargest_edges 9 sample_aggregates)). simpl. lia.
Defined.

Lemma nlargest_nan_last_witness :
  In ("B", Some 10) (nlargest 7 sample_aggregates).
Proof.
  apply (nlargest_nan_last 7 sample_aggregates "D").
  - vm_compute. do 6 right. left. reflexivity.
  - simpl. right. left. reflexivity.
Defined.

Section TopGroups.
Context {K : Type} `{KeyLaws K}.

(** The rows of a top-n selection of grouped means are groups of the
    frame: no key twice, each key carried by some row, each mean the mean
    of that key's non-missing values. *)
Theorem top_rows_are_groups (byKey : Row -> option K) (df : list Row) (n : nat) :
  NoDup (map fst (nlargest n (groupby_mean byKey df))) /\
  forall k m, In (k, m) (nlargest n (groupby_mean byKey df)) ->
              key_present byKey k df /\ is_mean_of m (group_values byKey k df).
Proof.
  split.
  - pose proof (group_keys_NoDup byKey df) as Hnd.
    rewrite <- groupby_mean_keys in Hnd.
    apply (Permutation_NoDup
             (Permutation_map fst (Permutation_sym
                                     (ranked_perm (groupby_mean byKey df))))) in Hnd.
    rewrite <- (firstn_skipn n (ranked (groupby_mean byKey df))), map_app in Hnd.
    now apply NoDup_app_remove_r in Hnd.
  - intros k m Hin. unfold nlargest in Hin. apply In_firstn_In in Hin.
    apply (Permutation_in _ (ranked_perm _)) in Hin.
    apply groupby_mean_row in Hin as (Hp & Hm & _). now split.
Qed.

Context `{!KeyOrder K}.

Lemma same_mean_self (a : K * option Q) : same_mean (snd a) a = true.
Proof.
  unfold same_mean. destruct (snd a) as [q|]; [|reflexivity].
  apply Qeq_bool_iff. reflexivity.
Qed.

Lemma same_mean_of_same_value (a b : K * option Q) :
  same_value (snd a) (snd b) -> same_mean (snd a) b = true.
Proof.
  unfold same_value, same_mean.
  destruct (snd a) as [q|], (snd b) as [v|]; try contradiction; [|reflexivity].
  intros E. apply Qeq_bool_iff. now symmetry.
Qed.

(** In a top-n selection of grouped means a tie is decided by the key:
    of two selected groups with the same mean, the one listed first has
    the smaller key (for [top_prev] and [top_mor]: the country name that
    comes first). *)
Theorem top_ties_by_key (byKey : Row -> option K) (df : list Row) (n : nat)
        (l1 l2 l3 : list (K * option Q)) (a b : K * option Q) :
  nlargest n (groupby_mean byKey df) = l1 ++ a :: l2 ++ b :: l3 ->
  same_value (snd a) (snd b) ->
  key_lt (fst a) (fst b).
Proof.
  intros Htop Hsame. unfold nlargest in Htop.
  pose proof (ranked_stable (snd a) (groupby_mean byKey df)) as Hst.
  rewrite <- (firstn_skipn n (ranked (groupby_mean byKey df))), Htop in Hst.
  set (rest := skipn n (ranked (groupby_mean byKey df))) in *.
  set (p := same_mean (snd a)) in *.
  assert (Hsorted : StronglySorted (fun x y => key_lt (fst x) (fst y))
                                   (filter p (groupby_mean byKey df))).
  { apply StronglySorted_filter, StronglySorted_map_fst, groupby_mean_keys_strict. }
  rewrite <- Hst in Hsorted.
  replace ((l1 ++ a :: l2 ++ b :: l3) ++ rest)
    with ((l1 ++ a :: l2) ++ b :: l3 ++ rest) in Hsorted
    by (rewrite <- !app_assoc; simpl; now rewrite <- app_assoc).
  rewrite filter_app in Hsorted.
  apply StronglySorted_app_inv in Hsorted as [_ Hcross].
  apply Hcross.
  - apply filter_In. split; [apply in_or_app; right; now left|].
    apply same_mean_self.
  - apply filter_In. split; [now left|].
    now apply same_mean_of_same_value.
Qed.
End TopGroups.

Lemma top_rows_are_groups_witness :
  NoDup (map fst (top_prev sample_rows)) /\
  forall k m, In (k, m) (top_prev sample_rows) ->
              key_present by_country k sample_rows /\
              is_mean_of m (group_values by_country k sample_rows).
Proof.
  exact (@top_rows_are_groups string string_Key string_KeyLaws
                              by_country sample_rows 5).
Defined.

Lemma top_ties_by_key_witness : key_lt "A" "B".
Proof.
  apply (@top_ties_by_key string string_Key string_KeyLaws string_KeyOrder
           by_country
           [ row "B" 2020 "Male" (Some 7); row "A" 2020 "Male" (Some 7) ]
           5 [] [] [] ("A", Some (7 # 1)) ("B", Some (7 # 1))).
  - vm_compute. reflexivity.
  - simpl. reflexivity.
Defined.

(** ** The actual series *)

Lemma insert_year_perm x l : Permutation (insert_year x l) (x :: l).
Proof.
  induction l as [|h t IH]; simpl; [reflexivity|].
  destruct (fst (fst x) <=? fst (fst h))%Z; [reflexivity|].
  rewrite IH. apply perm_swap.
Qed.

Lemma sort_values_year_perm l : Permutation (sort_values_year l) l.
Proof.
  induction l as [|h t IH]; simpl; [reflexivity|].
  rewrite insert_year_perm. now constructor.
Qed.

Lemma insert_year_sorted x l :
  StronglySorted (fun a b => (fst (fst a) <= fst (fst b))%Z) l ->
  StronglySorted (fun a b => (fst (fst a) <= fst (fst b))%Z) (insert_year x l).
Proof.
  induction l as [|h t IH]; intros Hs; simpl.
  - repeat constructor.
  - inversion Hs as [|? ? Ht Hh]; subst.
    destruct (fst (fst x) <=? fst (fst h))%Z eqn:E.
    + apply Z.leb_le in E. constructor; [assumption|]. constructor; [assumption|].
      eapply Forall_impl; [|exact Hh]. intros y Hy. simpl in *. lia.
    + apply Z.leb_gt in E. constructor; [now apply IH|].
      eapply Permutation_Forall; [symmetry; apply insert_year_perm|].
      constructor; [lia|assumption].
Qed.

Lemma sort_values_year_sorted l :
  StronglySorted (fun a b => (fst (fst a) <= fst (fst b))%Z) (sort_values_year l).
Proof.
  induction l as [|h t IH]; simpl; [constructor|]. now apply insert_year_sorted.
Qed.

Lemma NoDup_pairs_filter {A : Type} (f : A -> Z) (g : A -> string) (s : string)
      (l : list A) :
  NoDup (map (fun r => (f r, g r)) l) ->
  NoDup (map f (filter (fun r => String.eqb (g r) s) l)).
Proof.
  induction l as [|x t IH]; simpl; intros Hnd; [constructor|].
  inversion Hnd as [|? ? Hnotin Hnd']; subst.
  destruct (String.eqb (g x) s) eqn:E; [|now apply IH].
  simpl. constructor; [|now apply IH].
  intros Hin. apply in_map_iff in Hin as (y & Hfy & Hy).
  apply filter_In in Hy as [Hy Hgy].
  apply String.eqb_eq in E, Hgy. apply Hnotin.
  apply in_map_iff. exists y. split; [|assumption]. congruence.
Qed.

Lemma actual_ts_keys (df : list Row) :
  Permutation (map (fun r => (ts_year r, ts_sex r)) (actual_ts df))
              (group_keys by_year_sex df).
Proof.
  unfold actual_ts. rewrite map_map. simpl.
  rewrite <- groupby_mean_keys.
  rewrite <- (Permutation_map fst (sort_values_year_perm (groupby_mean by_year_sex df))).
  apply Permutation_refl'. apply map_ext. intros [[y s] m]. reflexivity.
Qed.

Lemma actual_ts_In (df : list Row) (r : TsRow) :
  In r (actual_ts df) <->
  ts_type r = "Actual" /\
  In ((ts_year r, ts_sex r), ts_value r) (groupby_mean by_year_sex df).
Proof.
  unfold actual_ts. rewrite in_map_iff. split.
  - intros ([[y s] m] & <- & Hin). simpl. split; [reflexivity|].
    now apply (Permutation_in _ (sort_values_year_perm _)).
  - intros [Ht Hin]. exists ((ts_year r, ts_sex r), ts_value r). simpl. split.
    + destruct r; simpl in *. now subst.
    + now apply (Permutation_in _ (Permutation_sym (sort_values_year_perm _))).
Qed.

(** The actual series of a frame: its rows are in ascending order of the
    year and typed "Actual"; there is one row per (year, sex) present in
    the frame, holding the mean of that year and sex; so the series of one
    sex has every year once. *)
Theorem actual_ts_spec (df : list Row) :
  StronglySorted (fun a b => (ts_year a <= ts_year b)%Z) (actual_ts df) /\
  NoDup (map (fun r => (ts_year r, ts_sex r)) (actual_ts df)) /\
  (forall y s, In (y, s) (map (fun r => (ts_year r, ts_sex r)) (actual_ts df))
               <-> exists r, In r df /\ year r = y /\ sex r = Some s) /\
  (forall r, In r (actual_ts df) ->
             ts_type r = "Actual" /\
             is_mean_of (ts_value r)
                        (group_values by_year_sex (ts_year r, ts_sex r) df)) /\
  (forall s, NoDup (map ts_year (filter (ts_sex_is s) (actual_ts df)))).
Proof.
  assert (Hnd : NoDup (map (fun r => (ts_year r, ts_sex r)) (actual_ts df))).
  { apply (Permutation_NoDup (Permutation_sym (actual_ts_keys df))).
    apply group_keys_NoDup. }
  split; [|split; [exact Hnd|split; [|split]]].
  - unfold actual_ts.
    pose proof (sort_values_year_sorted (groupby_mean by_year_sex df)) as Hs.
    induction Hs as [|x t Ht IH Hx]; simpl; constructor; [assumption|].
    rewrite Forall_forall in *. intros r Hr.
    apply in_map_iff in Hr as (e & <- & He). simpl. now apply Hx.
  - intros y s. split.
    + intros Hin. apply (Permutation_in _ (actual_ts_keys df)) in Hin.
      apply group_keys_In in Hin as (r & Hr & Hk). exists r. split; [assumption|].
      unfold by_year_sex in Hk. destruct (sex r) as [s'|]; [|discriminate].
      injection Hk as <- <-. now split.
    + intros (r & Hr & Hy & Hs).
      apply (Permutation_in _ (Permutation_sym (actual_ts_keys df))).
      apply group_keys_In. exists r. split; [assumption|].
      unfold by_year_sex. now rewrite Hs, Hy.
  - intros r Hr. apply actual_ts_In in Hr as [Ht Hin]. split; [assumption|].
    now apply groupby_mean_row in Hin as (_ & Hm & _).
  - intros s. unfold ts_sex_is. now apply NoDup_pairs_filter.
Qed.

Lemma actual_ts_spec_witness :
  NoDup (map ts_year (filter (ts_sex_is "Male") (actual_ts both_sexes))).
Proof.
  exact (proj2 (proj2 (proj2 (proj2 (actual_ts_spec both_sexes)))) "Male").
Defined.

(** ** Forecast: shape and linearity *)

Lemma forecast_ok_inv (df_sex : list TsRow) (years : list Z) (sex : string)
      (out : list TsRow) :
  forecast df_sex years sex = Ok out ->
  exists m b,
    polyfit (map ts_year df_sex) (map ts_value df_sex) = Ok (m, b) /\
    out = map (fun yr => mkTs yr sex
                              (nan_add (nan_mul m (Some (inject_Z yr))) b)
                              "Forecast") years.
Proof.
  unfold forecast.
  destruct (polyfit (map ts_year df_sex) (map ts_value df_sex)) as [[m b]|e];
    simpl; [|discriminate].
  intros Heq; injection Heq as <-. now exists m, b.
Qed.

Lemma forecasts_ok_inv (ts : list TsRow) (years : list Z) (out : list TsRow) :
  forecasts ts years = Ok out ->
  exists male female,
    forecast (filter (ts_sex_is "Male") ts) years "Male" = Ok male /\
    forecast (filter (ts_sex_is "Female") ts) years "Female" = Ok female /\
    out = male ++ female.
Proof.
  unfold forecasts. cbn [for_each].
  destruct (forecast (filter (ts_sex_is "Male") ts) years "Male") as [male|e];
    cbn [bind app]; [|discriminate].
  destruct (forecast (filter (ts_sex_is "Female") ts) years "Female") as [female|e];
    cbn [bind]; [|discriminate].
  intros Heq; injection Heq as <-. now exists male, female.
Qed.

(** When the loop over the sexes succeeds, the forecast frame holds, for
    Male and then for Female, one row per future year in the order of the
    list, typed "Forecast": twice as many rows as future years. *)
Theorem forecasts_shape (ts : list TsRow) (years : list Z) (out : list TsRow) :
  forecasts ts years = Ok out ->
  map ts_year out = years ++ years /\
  map ts_sex out = repeat "Male" (length years) ++ repeat "Female" (length years) /\
  Forall (fun r => ts_type r = "Forecast") out /\
  length out = (2 * length years)%nat.
Proof.
  intros Hout. apply forecasts_ok_inv in Hout as (male & female & Hm & Hf & ->).
  apply forecast_ok_inv in Hm as (mm & bm & _ & ->).
  apply forecast_ok_inv in Hf as (mf & bf & _ & ->).
  rewrite !map_app, !map_map, length_app, !length_map. cbn [ts_year ts_sex].
  rewrite map_id. split; [reflexivity|]. split; [|split].
  - f_equal; induction years as [|y t IH]; simpl; congruence.
  - apply Forall_app. split; apply Forall_forall; intros r Hr;
      apply in_map_iff in Hr as (y & <- & _); reflexivity.
  - lia.
Qed.

Lemma forecasts_shape_witness :
  exists out,
    forecasts (actual_ts both_sexes) years_future = Ok out /\
    map ts_year out = [2025; 2030; 2025; 2030]%Z.
Proof.
  eexists. split; [vm_compute; reflexivity|].
  refine (proj1 (forecasts_shape (actual_ts both_sexes) years_future _ _)).
  vm_compute. reflexivity.
Defined.

(** The forecast values of one series lie on one line: between any two
    forecast rows with a number, the value changes by the same slope times
    the difference of the years, whatever years were requested. *)
Theorem forecast_linear (df_sex : list TsRow) (sex : string) :
  exists m,
    forall years out p1 p2 v1 v2,
      forecast df_sex years sex = Ok out ->
      In p1 out -> In p2 out ->
      ts_value p1 = Some v1 -> ts_value p2 = Some v2 ->
      v2 - v1 == m * (inject_Z (ts_year p2) - inject_Z (ts_year p1)).
Proof.
  destruct (polyfit (map ts_year df_sex) (map ts_value df_sex))
    as [[[m|] [b|]]|e] eqn:Hfit.
  - exists m. intros years out p1 p2 v1 v2 Hout H1 H2 Hv1 Hv2.
    apply forecast_ok_inv in Hout as (m' & b' & Hfit' & ->).
    rewrite Hfit in Hfit'. injection Hfit' as <- <-.
    apply in_map_iff in H1 as (y1 & <- & _), H2 as (y2 & <- & _).
    simpl in *. injection Hv1 as <-. injection Hv2 as <-. ring.
  - exists 0. intros years out p1 p2 v1 v2 Hout H1 _ Hv1 _.
    apply forecast_ok_inv in Hout as (m' & b' & Hfit' & ->).
    rewrite Hfit in Hfit'. injection Hfit' as <- <-.
    apply in_map_iff in H1 as (y1 & <- & _). discriminate Hv1.
  - exists 0. intros years out p1 p2 v1 v2 Hout H1 _ Hv1 _.
    apply forecast_ok_inv in Hout as (m' & b' & Hfit' & ->).
    rewrite Hfit in Hfit'. injection Hfit' as <- <-.
    apply in_map_iff in H1 as (y1 & <- & _). discriminate Hv1.
  - exists 0. intros years out p1 p2 v1 v2 Hout H1 _ Hv1 _.
    apply forecast_ok_inv in Hout as (m' & b' & Hfit' & ->).
    rewrite Hfit in Hfit'. injection Hfit' as <- <-.
    apply in_map_iff in H1 as (y1 & <- & _). discriminate Hv1.
  - exists 0. intros years out p1 p2 v1 v2 Hout.
    apply forecast_ok_inv in Hout as (m' & b' & Hfit' & _).
    rewrite Hfit in Hfit'. discriminate.
Qed.

(** The fitted line passes through the centre of the series: at the mean
    year it takes the mean value. *)
Theorem forecast_through_centroid (df_sex : list TsRow) (years : list Z)
        (sex : string) :
  (forall r, In r df_sex -> ts_value r <> None) ->
  two_distinct_years df_sex ->
  exists m b,
    forecast df_sex years sex
    = Ok (map (fun yr => mkTs yr sex (Some (m * inject_Z yr + b)) "Forecast")
              years) /\
    m * (total (map fst (points df_sex)) / Qlen (points df_sex)) + b
    == total (map snd (points df_sex)) / Qlen (points df_sex).
Proof.
  intros Hv Hd. pose proof (points_det_pos df_sex Hv Hd) as Hdet.
  exists (ols_m (map fst (points df_sex)) (map snd (points df_sex))),
         (ols_b (map fst (points df_sex)) (map snd (points df_sex))).
  split; [now apply forecast_ols|].
  destruct (ols_normal _ Hdet) as [_ H2].
  pose proof (det_pos_nonempty _ Hdet) as Hn.
  set (m := ols_m _ _) in *. set (b := ols_b _ _) in *.
  set (n := Qlen (points df_sex)) in *.
  set (Tx := total (map fst (points df_sex))) in *.
  set (Ty := total (map snd (points df_sex))) in *.
  assert (Hty : Ty == m * Tx + n * b) by lra.
  rewrite Hty. field. lra.
Qed.

Lemma forecast_through_centroid_witness :
  exists m b,
    forecast lebanon_male years_future "Male"
    = Ok (map (fun yr => mkTs yr "Male" (Some (m * inject_Z yr + b)) "Forecast")
              years_future) /\
    m * (total (map fst (points lebanon_male)) / Qlen (points lebanon_male)) + b
    == total (map snd (points lebanon_male)) / Qlen (points lebanon_male).
Proof.
  apply (forecast_through_centroid lebanon_male years_future "Male").
  - intros r Hr. simpl in Hr.
    destruct Hr as [<-|[<-|[<-|[]]]]; simpl; discriminate.
  - exists (mkTs 2018 "Male" (Some 20) "Actual"),
           (mkTs 2019 "Male" (Some 22) "Actual").
    simpl. repeat split; auto. discriminate.
Defined.

Lemma forecast_linear_witness :
  exists m,
    forall years out p1 p2 v1 v2,
      forecast lebanon_male years "Male" = Ok out ->
      In p1 out -> In p2 out ->
      ts_value p1 = Some v1 -> ts_value p2 = Some v2 ->
      v2 - v1 == m * (inject_Z (ts_year p2) - inject_Z (ts_year p1)).
Proof. exact (forecast_linear lebanon_male "Male"). Defined.

(** ** Forecast: NaN, failure and success of the charts *)

Lemma all_some_None (l : list (option Q)) : In None l -> all_some l = None.
Proof.
  induction l as [|[v|] t IH]; simpl; intros Hin; [contradiction| |reflexivity].
  destruct Hin as [Hin|Hin]; [discriminate|]. now rewrite IH.
Qed.

Lemma total_map_pos {A : Type} (f : A -> Q) (l : list A) (a : A) :
  (forall x, In x l -> 0 <= f x) -> In a l -> 0 < f a -> 0 < total (map f l).
Proof.
  induction l as [|x t IH]; intros Hnn Hin Hpos; [contradiction|].
  cbn [map]. rewrite total_cons.
  pose proof (Hnn x (or_introl eq_refl)) as Hx.
  assert (Ht : 0 <= total (map f t))
    by (apply total_map_nonneg; intros; apply Hnn; now right).
  destruct Hin as [->|Hin]; [lra|].
  assert (0 < total (map f t)) by (apply IH; auto; intros; apply Hnn; now right).
  lra.
Qed.

Lemma Sxx_nonzero (x : list Z) :
  (exists y, In y x /\ y <> 0%Z) -> Qeq_bool (Sxx (map inject_Z x)) 0 = false.
Proof.
  intros (y & Hy & Hne). apply Qeq_bool_false.
  unfold Sxx. rewrite Qsum_total.
  assert (0 < total (map (fun a : Q => a * a) (map inject_Z x))); [|lra].
  apply (total_map_pos _ _ (inject_Z y)).
  - intros; apply Qsquare_nonneg.
  - now apply in_map.
  - assert (Hq : ~ inject_Z y == 0).
    { change 0 with (inject_Z 0). now rewrite inject_Z_injective. }
    pose proof (Qsquare_nonneg (inject_Z y)) as Hsq.
    destruct (Qlt_le_dec 0 (inject_Z y * inject_Z y)) as [|Hle]; [assumption|].
    exfalso. apply Hq, Qsquare_zero. lra.
Qed.

(** A series in which some year other than 0 occurs is always fitted:
    the fit raises on no such series. *)
Lemma forecast_ok (df_sex : list TsRow) (years : list Z) (sex : string) :
  (exists r, In r df_sex /\ ts_year r <> 0%Z) ->
  exists out, forecast df_sex years sex = Ok out.
Proof.
  intros (r & Hr & Hy).
  assert (Hne : map ts_year df_sex <> []) by (destruct df_sex; [contradiction|discriminate]).
  unfold forecast. rewrite (polyfit_nonempty _ _ Hne).
  rewrite !length_map, Nat.eqb_refl. cbn [negb].
  rewrite Sxx_nonzero by (exists (ts_year r); split; [now apply in_map|assumption]).
  destruct (all_some (map ts_value df_sex)) as [ys|]; [|simpl; eauto].
  destruct (Qeq_bool (det (map inject_Z (map ts_year df_sex))) 0); simpl; eauto.
Qed.

(** One missing yearly mean makes every forecast value of the series NaN
    (the fit itself does not fail). *)
Theorem forecast_nan (df_sex : list TsRow) (years : list Z) (sex : string) :
  (exists r, In r df_sex /\ ts_value r = None) ->
  (exists r, In r df_sex /\ ts_year r <> 0%Z) ->
  forecast df_sex years sex
  = Ok (map (fun yr => mkTs yr sex None "Forecast") years).
Proof.
  intros (r & Hr & Hv) (r' & Hr' & Hy).
  assert (Hne : map ts_year df_sex <> []) by (destruct df_sex; [contradiction|discriminate]).
  unfold forecast. rewrite (polyfit_nonempty _ _ Hne).
  rewrite !length_map, Nat.eqb_refl. cbn [negb].
  rewrite Sxx_nonzero by (exists (ts_year r'); split; [now apply in_map|assumption]).
  rewrite all_some_None; [reflexivity|].
  rewrite <- Hv. now apply in_map.
Qed.

Lemma forecast_nan_witness :
  forecast [ mkTs 2018 "Male" (Some 20) "Actual";
             mkTs 2019 "Male" None "Actual" ] years_future "Male"
  = Ok (map (fun yr => mkTs yr "Male" None "Forecast") years_future).
Proof.
  apply forecast_nan.
  - exists (mkTs 2019 "Male" None "Actual"). split; [right; now left|reflexivity].
  - exists (mkTs 2018 "Male" (Some 20) "Actual"). split; [now left|discriminate].
Defined.

Lemma Sxx_zero (x : list Z) :
  (forall y, In y x -> y = 0%Z) -> Qeq_bool (Sxx (map inject_Z x)) 0 = true.
Proof.
  intros Hz. apply Qeq_bool_iff. unfold Sxx. rewrite Qsum_total.
  rewrite (total_map_const (fun a : Q => a * a) (map inject_Z x) 0).
  - ring.
  - intros a Ha. apply in_map_iff in Ha as (y & <- & Hy).
    now rewrite (Hz y Hy).
Qed.

Lemma forecast_all_zero_years (df_sex : list TsRow) (years : list Z) (sex : string) :
  df_sex <> [] -> (forall r, In r df_sex -> ts_year r = 0%Z) ->
  forecast df_sex years sex = Err LinAlgError.
Proof.
  intros Hne Hz.
  assert (Hxne : map ts_year df_sex <> [])
    by (destruct df_sex; [congruence|discriminate]).
  unfold forecast. rewrite (polyfit_nonempty _ _ Hxne).
  rewrite !length_map, Nat.eqb_refl. cbn [negb].
  rewrite Sxx_zero; [reflexivity|].
  intros y Hy. apply in_map_iff in Hy as (r & <- & Hr). now apply Hz.
Qed.

Lemma years_zero_or_not (df_sex : list TsRow) :
  (forall r, In r df_sex -> ts_year r = 0%Z) \/
  (exists r, In r df_sex /\ ts_year r <> 0%Z).
Proof.
  induction df_sex as [|r t IH]; [left; intros r []|].
  destruct (Z.eq_dec (ts_year r) 0) as [Hr|Hr].
  - destruct IH as [IH|(r' & Hr' & Hy)].
    + left. intros r' [<-|Hin]; auto.
    + right. exists r'. split; [now right|assumption].
  - right. exists r. split; [now left|assumption].
Qed.

(** C4, amended: [forecast] fails exactly when the series is empty
    (numpy's TypeError) or when it is not empty and all its years are 0
    (numpy's LinAlgError), and never otherwise.  In particular, on a
    non-empty series of numbers that all lie in one year other than 0,
    among them every such single-point series, it does not fail: the fit
    returns the rank-deficient solution [m = mean/(2*year)],
    [b = mean/2], and [forecast] returns one row per requested year on
    that line. *)
Theorem forecast_few_years :
  (forall years sex, forecast [] years sex = Err TypeError) /\
  (forall (df_sex : list TsRow) (years : list Z) (sex : string),
      df_sex <> [] -> (forall r, In r df_sex -> ts_year r = 0%Z) ->
      forecast df_sex years sex = Err LinAlgError) /\
  (forall (df_sex : list TsRow) (years : list Z) (sex : string) (e : error),
      forecast df_sex years sex = Err e ->
      (df_sex = [] /\ e = TypeError) \/
      (df_sex <> [] /\ (forall r, In r df_sex -> ts_year r = 0%Z)
       /\ e = LinAlgError)) /\
  (forall (df_sex : list TsRow) (years : list Z) (sex : string) (x0 : Z),
      df_sex <> [] -> x0 <> 0%Z ->
      (forall r, In r df_sex -> ts_year r = x0 /\ ts_value r <> None) ->
      exists m b,
        forecast df_sex years sex
        = Ok (map (fun yr => mkTs yr sex (Some (m * inject_Z yr + b)) "Forecast")
                  years) /\
        m == total (map snd (points df_sex)) / Qlen (points df_sex)
             / (2 * inject_Z x0) /\
        b == total (map snd (points df_sex)) / Qlen (points df_sex) / 2).
Proof.
  split; [reflexivity|]. split; [apply forecast_all_zero_years|].
  split; [|apply forecast_one_year].
  intros df_sex years sex e He.
  destruct df_sex as [|r t].
  - left. split; [reflexivity|]. simpl in He. now injection He.
  - right. split; [discriminate|].
    destruct (years_zero_or_not (r :: t)) as [Hz|Hnz].
    + split; [assumption|].
      rewrite (forecast_all_zero_years (r :: t) years sex) in He;
        [now injection He|discriminate|assumption].
    + destruct (forecast_ok (r :: t) years sex Hnz) as [out Hout].
      rewrite Hout in He. discriminate.
Qed.

Lemma forecast_few_years_witness :
  (exists m b,
      forecast single_point years_future "Male"
      = Ok (map (fun yr => mkTs yr "Male" (Some (m * inject_Z yr + b)) "Forecast")
                years_future) /\
      m == total (map snd (points single_point)) / Qlen (points single_point)
           / (2 * inject_Z 2020) /\
      b == total (map snd (points single_point)) / Qlen (points single_point) / 2) /\
  forecast [mkTs 0 "Male" (Some 5) "Actual"] years_future "Male"
  = Err LinAlgError.
Proof.
  destruct forecast_few_years as (_ & Hzero & _ & Hone). split.
  - apply (Hone single_point years_future "Male" 2020%Z).
    + discriminate.
    + discriminate.
    + intros r Hr. simpl in Hr. destruct Hr as [<-|[]]. simpl.
      split; [reflexivity|discriminate].
  - apply Hzero; [discriminate|].
    intros r Hr. simpl in Hr. destruct Hr as [<-|[]]. reflexivity.
Defined.

Lemma actual_ts_has_key (df : list Row) (y : Z) (s : string) :
  (exists t, In t (actual_ts df) /\ ts_year t = y /\ ts_sex t = s) <->
  exists r, In r df /\ year r = y /\ sex r = Some s.
Proof.
  split.
  - intros (t & Ht & <- & <-). apply actual_ts_In in Ht as [_ Hin].
    apply groupby_mean_row in Hin as ((r & Hr & Hk) & _).
    exists r. split; [assumption|]. unfold by_year_sex in Hk.
    destruct (sex r) as [s'|]; [|discriminate]. injection Hk as <- <-. now split.
  - intros (r & Hr & Hy & Hs).
    assert (Hk : In (y, s) (map fst (groupby_mean by_year_sex df))).
    { rewrite groupby_mean_keys. apply group_keys_In. exists r. split; [assumption|].
      unfold by_year_sex. now rewrite Hs, Hy. }
    apply in_map_iff in Hk as ([k m] & Hk & Hin). simpl in Hk. subst k.
    exists (mkTs y s m "Actual"). split; [|now split].
    apply actual_ts_In. now split.
Qed.

Lemma no_sex_no_series (df : list Row) (s : string) :
  (forall r, In r df -> sex r <> Some s) ->
  filter (ts_sex_is s) (actual_ts df) = [].
Proof.
  intros Hno. destruct (filter (ts_sex_is s) (actual_ts df)) as [|t l] eqn:E;
    [reflexivity|].
  exfalso. assert (Ht : In t (filter (ts_sex_is s) (actual_ts df)))
    by (rewrite E; now left).
  apply filter_In in Ht as [Ht Hs]. unfold ts_sex_is in Hs.
  apply String.eqb_eq in Hs.
  destruct (proj1 (actual_ts_has_key df (ts_year t) s)) as (r & Hr & _ & Hsex).
  - now exists t.
  - exact (Hno r Hr Hsex).
Qed.

Lemma plot_frame_no_male (df : list Row) :
  (forall r, In r df -> sex r <> Some "Male") -> plot_frame df = Err TypeError.
Proof.
  intros Hno. unfold plot_frame, forecasts. cbn [for_each].
  now rewrite (no_sex_no_series df "Male" Hno).
Qed.

Lemma plot_frame_no_female (df : list Row) :
  (forall r, In r df -> sex r <> Some "Female") -> exists e, plot_frame df = Err e.
Proof.
  intros Hno. unfold plot_frame, forecasts. cbn [for_each].
  destruct (forecast (filter (ts_sex_is "Male") (actual_ts df)) years_future "Male")
    as [male|e]; cbn [bind]; [|now exists e].
  rewrite (no_sex_no_series df "Female" Hno). now exists TypeError.
Qed.

Lemma filter_country_no_sex (df : list Row) (c s : string) :
  (forall r, In r df -> country r = Some c -> sex r <> Some s) ->
  forall r, In r (filter (country_is c) df) -> sex r <> Some s.
Proof.
  intros Hno r Hr. apply filter_In in Hr as [Hr Hc]. apply Hno; [assumption|].
  unfold country_is in Hc. destruct (country r) as [c'|]; [|discriminate].
  apply String.eqb_eq in Hc. now subst.
Qed.

(** A selected country without any male row, or without any female row,
    in the tobacco frame makes the fit of that sex raise: the prevalence
    chart is not built, and the mortality chart after it is not either. *)
Theorem charts_fail_without_sex (df_tob df_mor : list Row) (c : string) :
  ((forall r, In r df_tob -> country r = Some c -> sex r <> Some "Male") ->
   df_plot (dashboard df_tob df_mor c) = Err TypeError /\
   df_mplot (dashboard df_tob df_mor c) = Err TypeError) /\
  ((forall r, In r df_tob -> country r = Some c -> sex r <> Some "Female") ->
   exists e, df_plot (dashboard df_tob df_mor c) = Err e /\
             df_mplot (dashboard df_tob df_mor c) = Err e).
Proof.
  unfold dashboard; cbn [df_plot df_mplot]. split; intros Hno.
  - rewrite (plot_frame_no_male _ (filter_country_no_sex df_tob c "Male" Hno)).
    now split.
  - destruct (plot_frame_no_female _ (filter_country_no_sex df_tob c "Female" Hno))
      as [e ->]. exists e. now split.
Qed.

Lemma charts_fail_without_sex_witness :
  df_plot (dashboard sample_rows sample_rows "B") = Err TypeError /\
  df_mplot (dashboard sample_rows sample_rows "B") = Err TypeError.
Proof.
  destruct (proj2 (charts_fail_without_sex sample_rows sample_rows "B"))
    as (e & H1 & H2).
  - intros r Hr Hc. simpl in Hr.
    destruct Hr as [<-|[<-|[<-|[<-|[<-|[]]]]]]; simpl in *; discriminate.
  - assert (He : e = TypeError).
    { vm_compute in H1. now injection H1. }
    subst e. now split.
Defined.

Lemma series_has_year (df : list Row) (s : string) :
  (exists r, In r df /\ sex r = Some s /\ year r <> 0%Z) ->
  exists t, In t (filter (ts_sex_is s) (actual_ts df)) /\ ts_year t <> 0%Z.
Proof.
  intros (r & Hr & Hs & Hy).
  destruct (proj2 (actual_ts_has_key df (year r) s)) as (t & Ht & Hty & Hts).
  - now exists r.
  - exists t. split; [|now rewrite Hty].
    apply filter_In. split; [assumption|]. unfold ts_sex_is. rewrite Hts.
    apply String.eqb_refl.
Qed.

Lemma forecast_two_years (df_sex : list TsRow) (sex : string) (out : list TsRow) :
  forecast df_sex years_future sex = Ok out ->
  exists v1 v2,
    out = [ mkTs 2025 sex v1 "Forecast"; mkTs 2030 sex v2 "Forecast" ].
Proof.
  intros Hout. apply forecast_ok_inv in Hout as (m & b & _ & ->).
  simpl. eauto.
Qed.

Lemma plot_frame_ok (df : list Row) :
  (exists r, In r df /\ sex r = Some "Male" /\ year r <> 0%Z) ->
  (exists r, In r df /\ sex r = Some "Female" /\ year r <> 0%Z) ->
  exists v1 v2 v3 v4,
    plot_frame df
    = Ok (actual_ts df
          ++ [ mkTs 2025 "Male" v1 "Forecast"; mkTs 2030 "Male" v2 "Forecast";
               mkTs 2025 "Female" v3 "Forecast"; mkTs 2030 "Female" v4 "Forecast" ]).
Proof.
  intros Hm Hf.
  destruct (forecast_ok _ years_future "Male" (series_has_year df "Male" Hm))
    as [male Hmale].
  destruct (forecast_ok _ years_future "Female" (series_has_year df "Female" Hf))
    as [female Hfemale].
  destruct (forecast_two_years _ _ _ Hmale) as (v1 & v2 & Em).
  destruct (forecast_two_years _ _ _ Hfemale) as (v3 & v4 & Ef).
  exists v1, v2, v3, v4.
  unfold plot_frame, forecasts. cbn [for_each]. rewrite Hmale. cbn [bind app].
  rewrite Hfemale. cbn [bind]. now rewrite Em, Ef.
Qed.

(** Both charts are built as soon as the select box could be shown, the
    selected country is one of its options and has, in each of the two
    frames, a male and a female row with a year other than 0: each chart
    frame is the actual series of the selected country followed by four
    rows typed "Forecast", for 2025 and 2030 of Male, then for 2025 and
    2030 of Female. *)
Theorem charts_built (df_tob df_mor : list Row) (c : string)
        (options : list (option string)) :
  sorted_countries df_tob = Ok options ->
  In (Some c) options ->
  (forall df s, df = df_tob \/ df = df_mor -> s = "Male" \/ s = "Female" ->
     exists r, In r df /\ country r = Some c /\ sex r = Some s /\ year r <> 0%Z) ->
  (exists v1 v2 v3 v4,
     df_plot (dashboard df_tob df_mor c)
     = Ok (actual_ts (filter (country_is c) df_tob)
           ++ [ mkTs 2025 "Male" v1 "Forecast"; mkTs 2030 "Male" v2 "Forecast";
                mkTs 2025 "Female" v3 "Forecast";
                mkTs 2030 "Female" v4 "Forecast" ])) /\
  (exists v1 v2 v3 v4,
     df_mplot (dashboard df_tob df_mor c)
     = Ok (actual_ts (filter (country_is c) df_mor)
           ++ [ mkTs 2025 "Male" v1 "Forecast"; mkTs 2030 "Male" v2 "Forecast";
                mkTs 2025 "Female" v3 "Forecast";
                mkTs 2030 "Female" v4 "Forecast" ])).
Proof.
  intros _ _ Hrows.
  assert (Hsel : forall df s, df = df_tob \/ df = df_mor ->
                 s = "Male" \/ s = "Female" ->
                 exists r, In r (filter (country_is c) df)
                           /\ sex r = Some s /\ year r <> 0%Z).
  { intros df s Hdf Hs. destruct (Hrows df s Hdf Hs) as (r & Hr & Hc & Hsx & Hy).
    exists r. split; [|now split]. apply filter_In. split; [assumption|].
    unfold country_is. rewrite Hc. apply String.eqb_refl. }
  destruct (plot_frame_ok (filter (country_is c) df_tob))
    as (v1 & v2 & v3 & v4 & Hp); [apply Hsel; auto..|].
  destruct (plot_frame_ok (filter (country_is c) df_mor))
    as (w1 & w2 & w3 & w4 & Hp2); [apply Hsel; auto..|].
  unfold dashboard; cbn [df_plot df_mplot]. rewrite Hp. cbn [bind]. rewrite Hp2.
  split; [now exists v1, v2, v3, v4|now exists w1, w2, w3, w4].
Qed.

Lemma charts_built_witness :
  (exists v1 v2 v3 v4,
     df_plot (dashboard both_sexes both_sexes "Lebanon")
     = Ok (actual_ts (filter (country_is "Lebanon") both_sexes)
           ++ [ mkTs 2025 "Male" v1 "Forecast"; mkTs 2030 "Male" v2 "Forecast";
                mkTs 2025 "Female" v3 "Forecast";
                mkTs 2030 "Female" v4 "Forecast" ])) /\
  (exists v1 v2 v3 v4,
     df_mplot (dashboard both_sexes both_sexes "Lebanon")
     = Ok (actual_ts (filter (country_is "Lebanon") both_sexes)
           ++ [ mkTs 2025 "Male" v1 "Forecast"; mkTs 2030 "Male" v2 "Forecast";
                mkTs 2025 "Female" v3 "Forecast";
                mkTs 2030 "Female" v4 "Forecast" ])).
Proof.
  apply (charts_built both_sexes both_sexes "Lebanon"
                      [Some "Jordan"; Some "Lebanon"]).
  - reflexivity.
  - right. now left.
  - intros df s [->| ->] [->| ->].
    + exists (row "Lebanon" 2019 "Male" (Some 40)). simpl. repeat split; auto; discriminate.
    + exists (row "Lebanon" 2018 "Female" (Some 30)). simpl. repeat split; auto; discriminate.
    + exists (row "Lebanon" 2019 "Male" (Some 40)). simpl. repeat split; auto; discriminate.
    + exists (row "Lebanon" 2018 "Female" (Some 30)). simpl. repeat split; auto; discriminate.
Defined.

(** ** The country selector *)

Lemma no_missing_country (df : list Row) :
  (forall r, In r df -> country r <> None) ->
  existsb (fun r => match country r with None => true | Some _ => false end) df
  = false.
Proof.
  intros Hall. induction df as [|r t IH]; simpl; [reflexivity|].
  pose proof (Hall r (or_introl eq_refl)) as Hr.
  destruct (country r); [|congruence]. simpl. apply IH.
  intros; apply Hall; now right.
Qed.

Lemma has_country_iff (df : list Row) (c : string) :
  existsb (country_is c) df = true <-> exists r, In r df /\ country r = Some c.
Proof.
  rewrite existsb_exists. split; intros (r & Hr & Hc); exists r; split; auto.
  - unfold country_is in Hc. destruct (country r) as [c'|]; [|discriminate].
    apply String.eqb_eq in Hc. now subst.
  - unfold country_is. rewrite Hc. apply String.eqb_refl.
Qed.

Lemma list_index_nth (s : string) (names : list string) :
  In s names ->
  nth_error (map Some names) (list_index s (map Some names)) = Some (Some s).
Proof.
  induction names as [|h t IH]; intros Hin; [contradiction|].
  cbn [map list_index isin existsb]. rewrite orb_false_r.
  destruct (String.eqb h s) eqn:E.
  - apply String.eqb_eq in E. now subst.
  - destruct Hin as [->|Hin]; [now rewrite String.eqb_refl in E|].
    simpl. now apply IH.
Qed.

(** When no row lacks its country, the select box offers the countries
    of the frame, each once, in ascending order; it opens on Lebanon when
    Lebanon is among them, and otherwise on the first one (on nothing for
    an empty frame). *)
Theorem selector_options (df_tob : list Row) :
  (forall r, In r df_tob -> country r <> None) ->
  exists names,
    sorted_countries df_tob = Ok (map Some names) /\
    StronglySorted key_lt names /\
    (forall c, In c names <-> exists r, In r df_tob /\ country r = Some c) /\
    ((exists r, In r df_tob /\ country r = Some "Lebanon") ->
     default_country df_tob = Ok (Some (Some "Lebanon"))) /\
    (~ (exists r, In r df_tob /\ country r = Some "Lebanon") ->
     default_country df_tob = Ok (option_map Some (hd_error names))).
Proof.
  intros Hall. exists (group_keys by_country df_tob).
  assert (Hopts : sorted_countries df_tob
                  = Ok (map Some (group_keys by_country df_tob))).
  { unfold sorted_countries. now rewrite (no_missing_country df_tob Hall). }
  split; [exact Hopts|]. split; [apply group_keys_strict|].
  split; [intros c; apply group_keys_In|].
  unfold default_country, default_index. rewrite Hopts. cbn [bind].
  split; intros HL.
  - rewrite (proj2 (has_country_iff df_tob "Lebanon") HL). cbn [bind].
    f_equal. apply list_index_nth. now apply group_keys_In.
  - destruct (existsb (country_is "Lebanon") df_tob) eqn:E.
    + exfalso. apply HL. now apply has_country_iff.
    + cbn [bind]. f_equal. now destruct (group_keys by_country df_tob).
Qed.

Lemma selector_options_witness :
  default_country both_sexes = Ok (Some (Some "Lebanon")).
Proof.
  destruct (selector_options both_sexes) as (names & _ & _ & _ & HL & _).
  - intros r Hr. simpl in Hr.
    destruct Hr as [<-|[<-|[<-|[<-|[<-|[]]]]]]; discriminate.
  - apply HL. exists (row "Lebanon" 2019 "Male" (Some 40)). split; [now left|reflexivity].
Defined.

(** A frame in which one row lacks its country and another has one makes
    the sort of the options, hence the select box, fail. *)
Theorem selector_mixed_fails (df_tob : list Row) :
  (exists r, In r df_tob /\ country r = None) ->
  (exists r, In r df_tob /\ country r <> None) ->
  sorted_countries df_tob = Err TypeError /\
  default_index df_tob = Err TypeError /\
  default_country df_tob = Err TypeError.
Proof.
  intros (r & Hr & Hnone) (r' & Hr' & Hsome).
  assert (Hs : sorted_countries df_tob = Err TypeError).
  { unfold sorted_countries.
    replace (existsb _ df_tob) with true.
    - destruct (unique (present_keys by_country df_tob)) as [|n ns] eqn:E;
        [|reflexivity].
      exfalso. destruct (country r') as [c|] eqn:Ec; [|congruence].
      assert (Hin : In c (unique (present_keys by_country df_tob))).
      { apply unique_In, present_keys_In. now exists r'. }
      now rewrite E in Hin.
    - symmetry. apply existsb_exists. exists r. split; [assumption|].
      now rewrite Hnone. }
  unfold default_country, default_index. rewrite Hs. now repeat split.
Qed.

Lemma selector_mixed_fails_witness :
  sorted_countries sample_rows = Err TypeError /\
  default_index sample_rows = Err TypeError /\
  default_country sample_rows = Err TypeError.
Proof.
  apply selector_mixed_fails.
  - eexists. split; [do 4 right; now left|reflexivity].
  - exists (row "B" 2020 "Male" (Some 50)). split; [now left|discriminate].
Defined.

(** ** The stacked breakdown *)

Lemma string_app_assoc (a b c : string) :
  ((a ++ b) ++ c = a ++ (b ++ c))%string.
Proof. induction a as [|x a IH]; simpl; [reflexivity|]. now rewrite IH. Qed.

Lemma load_tobacco_row_kept (path : list RawRow) (indicators : list string)
      (out : list Row) :
  load_tobacco path indicators = Ok out ->
  forall r, In r out ->
    isin (indicator_name r) indicators = true /\
    isin (sex r) ["Male"; "Female"] = true.
Proof.
  intros Hout r Hr. unfold load_tobacco in Hout. apply mapM_Forall2 in Hout.
  destruct (Forall2_In_r _ _ _ Hout r Hr) as (raw & Hraw & Hn).
  apply filter_In in Hraw as [_ Hk]. apply normalize_renamed in Hn.
  destruct Hn as (_ & _ & Hs & Hi & _). rewrite Hs, Hi.
  now apply andb_true_iff in Hk.
Qed.

(** On the frame loaded with the breakdown indicators, the second test of
    the indicator drops nothing: the breakdown is the selected country's
    rows of that frame, and each of them gets a label, its year followed by
    " - Male" or " - Female". *)
Theorem df_stack_of_loaded (path : list RawRow) (df_tob : list Row) (c : string) :
  load_tobacco path all_inds = Ok df_tob ->
  map fst (df_stack df_tob c) = filter (country_is c) df_tob /\
  forall r l, In (r, l) (df_stack df_tob c) ->
    l = Some (astype_str (year r) ++ " - Male")%string \/
    l = Some (astype_str (year r) ++ " - Female")%string.
Proof.
  intros Hload. pose proof (load_tobacco_row_kept _ _ _ Hload) as Hkept.
  split.
  - unfold df_stack. rewrite map_map. simpl. rewrite map_id.
    apply filter_ext_in. intros r Hr.
    destruct (Hkept r Hr) as [Hi _]. rewrite Hi. apply andb_true_r.
  - intros r l Hin. unfold df_stack in Hin.
    apply in_map_iff in Hin as (r' & Heq & Hr'). injection Heq as -> <-.
    apply filter_In in Hr' as [Hr' _]. destruct (Hkept r Hr') as [_ Hs].
    unfold year_sex. apply isin_In in Hs as (s & -> & Hs).
    rewrite string_app_assoc. simpl in Hs.
    destruct Hs as [<-|[<-|[]]]; [now left|now right].
Qed.

Lemma df_stack_of_loaded_witness :
  map fst (df_stack [ mkRow (Some "Lebanon") 2019 (Some "Male")
                            (Some "Daily tobacco use among adults (%)")
                            (Some 30) None None;
                      mkRow (Some "Lebanon") 2019 (Some "Female")
                            (Some "Daily tobacco use among adults (%)")
                            (Some 20) None None;
                      mkRow (Some "Jordan") 2019 (Some "Male")
                            (Some "Daily tobacco use among adults (%)")
                            (Some 40) None None ] "Lebanon")
  = filter (country_is "Lebanon")
           [ mkRow (Some "Lebanon") 2019 (Some "Male")
                   (Some "Daily tobacco use among adults (%)")
                   (Some 30) None None;
             mkRow (Some "Lebanon") 2019 (Some "Female")
                   (Some "Daily tobacco use among adults (%)")
                   (Some 20) None None;
             mkRow (Some "Jordan") 2019 (Some "Male")
                   (Some "Daily tobacco use among adults (%)")
                   (Some 40) None None ].
Proof.
  refine (proj1 (df_stack_of_loaded stack_sheet _ "Lebanon" _)).
  reflexivity.
Defined.

Example df_stack_labels :
  map snd (df_stack [ mkRow (Some "Lebanon") 2019 (Some "Male")
                            (Some "Daily tobacco use among adults (%)")
                            (Some 30) None None;
                      mkRow (Some "Lebanon") (-5) (Some "Female")
                            (Some "Daily tobacco use among adults (%)")
                            (Some 20) None None ] "Lebanon")
  = [Some "2019 - Male"; Some "-5 - Female"].
Proof. reflexivity. Qed.

Lemma no_space_uint (d : Decimal.uint) :
  no_space (DecimalString.NilEmpty.string_of_uint d) = true.
Proof. induction d; simpl; auto. Qed.

Lemma no_space_astype_str (y : Z) : no_space (astype_str y) = true.
Proof.
  unfold astype_str, DecimalString.NilZero.string_of_int,
    DecimalString.NilZero.string_of_uint.
  destruct (Z.to_int y) as [d|d]; destruct d; simpl;
    try reflexivity; apply no_space_uint.
Qed.

(** Up to the first space a string is read in one way only. *)
Lemma split_at_space (s1 s2 t1 t2 : string) :
  no_space s1 = true -> no_space s2 = true ->
  (s1 ++ String " " t1 = s2 ++ String " " t2)%string ->
  s1 = s2 /\ t1 = t2.
Proof.
  revert s2. induction s1 as [|a s1 IH]; intros [|b s2] H1 H2 Heq; simpl in *.
  - injection Heq as ->. now split.
  - injection Heq as <- _. simpl in H2. discriminate.
  - injection Heq as -> _. simpl in H1. discriminate.
  - injection Heq as -> Heq.
    apply andb_true_iff in H1 as [_ H1]. apply andb_true_iff in H2 as [_ H2].
    destruct (IH s2 H1 H2 Heq) as [-> ->]. now split.
Qed.

Lemma astype_str_injective (y1 y2 : Z) : astype_str y1 = astype_str y2 -> y1 = y2.
Proof.
  unfold astype_str. intros Heq.
  assert (Hnn : forall y, Z.to_int y <> Decimal.Pos Decimal.Nil
                          /\ Z.to_int y <> Decimal.Neg Decimal.Nil).
  { intros [|p|p]; simpl; split; try discriminate;
      intros E; injection E as E; exact (DecimalPos.Unsigned.to_uint_nonnil p E). }
  assert (Hint : Some (Z.to_int y1) = Some (Z.to_int y2)).
  { rewrite <- (DecimalString.NilZero.isi (Z.to_int y1)) by apply Hnn.
    rewrite <- (DecimalString.NilZero.isi (Z.to_int y2)) by apply Hnn.
    now rewrite Heq. }
  injection Hint as Hint.
  rewrite <- (DecimalZ.of_to y1), <- (DecimalZ.of_to y2). now rewrite Hint.
Qed.

(** The label of the breakdown identifies the year and the sex: two rows
    with the same label have the same year and the same sex. *)
Theorem year_sex_injective (r1 r2 : Row) (l : string) :
  year_sex r1 = Some l -> year_sex r2 = Some l ->
  year r1 = year r2 /\ sex r1 = sex r2.
Proof.
  unfold year_sex. destruct (sex r1) as [s1|]; [|discriminate].
  destruct (sex r2) as [s2|]; [|discriminate].
  intros H1 H2. injection H1 as <-. injection H2 as H2.
  rewrite !string_app_assoc in H2. simpl in H2.
  apply split_at_space in H2 as [Hy Hs]; try apply no_space_astype_str.
  injection Hs as ->. apply astype_str_injective in Hy. now split.
Qed.

Lemma year_sex_injective_witness :
  year (row "A" 2020 "Male" (Some 10)) = year (row "B" 2020 "Male" (Some 50)) /\
  sex (row "A" 2020 "Male" (Some 10)) = sex (row "B" 2020 "Male" (Some 50)).
Proof.
  apply (year_sex_injective _ _ "2020 - Male"); reflexivity.
Defined.
